(** * yaschema: the array and upgraded schema kinds, shallowly embedded

    Source files covered:
    - [src/schema/data-types/array.ts]: [array], [validateArray],
      [asyncValidateArray];
    - [src/schema/marker-types/upgraded.ts]: [upgraded].

    A schema is the object [makeInternalSchema] returns: its public cost and
    serialization flag together with the two hidden validators.  Validators
    are effectful (they log, they yield, they call other validators), so they
    live in a small state monad over a [world] holding the process-wide
    warning set and the history of observable events.

    Conventions.  Lengths, bounds, costs and the threshold are natural
    numbers; the one place where JavaScript leaves them, the chunk size
    [Math.max(1, Math.floor(threshold / cost))] with a zero cost, is modelled
    by [jsnumber].  An [async] function is a computation of the same monad:
    its suspension points are the [Yielded] events.  An error thunk is the
    data it closes over, rendered by [errorMessage].  The two [for] loops of
    [asyncValidateArray] run on fuel, the array length, shown to be enough
    ([processChunks_fuel_enough]). *)

From Stdlib Require Import List String Arith Bool Lia.
From stdpp Require Import base option list strings gmap sets pretty.

Open Scope string_scope.
Open Scope list_scope.
Open Scope nat_scope.

(** ** Values *)

(** The JavaScript values handed to a validator.  [Array.isArray] holds
    exactly for [VArray]. *)
#[local] Unset Elimination Schemes.
Inductive value : Type :=
| VUndefined
| VNull
| VBool (b : bool)
| VNumber (n : Z)
| VString (s : string)
| VArray (elems : list value)
| VObject (fields : list (string * value)).
#[local] Set Elimination Schemes.

(** [value !== undefined] *)
Definition isDefined (v : value) : bool :=
  match v with VUndefined => false | _ => true end.

(** ** Results *)

(** The data an error thunk closes over.  The three array errors are the
    three template literals of [array.ts]; [ChildError] stands for the
    message of a schema kind defined elsewhere. *)
Inductive error : Type :=
| ExpectedArray (found : string) (path : string)
| ArrayTooShort (minLength len : nat) (path : string)
| ArrayTooLong (maxLength len : nat) (path : string)
| ChildError (message : string).

(** [InternalValidationResult]: [{ error?: () => string }]. *)
Definition InternalValidationResult : Type := option error.

(** The shared [noError] constant. *)
Definition noError : InternalValidationResult := None.

(** Modelled from the spec: [atPath] of path-utils (not in the sources at
    hand), which qualifies a message with its location. *)
Definition atPath (path : string) : string :=
  match path with
  | EmptyString => ""
  | _ => " @ " +:+ path
  end.

(** Modelled from the spec: [appendPathIndex] of path-utils (not in the
    sources at hand), which extends a path by an [[index]] segment. *)
Definition appendPathIndex (path : string) (index : nat) : string :=
  path +:+ "[" +:+ pretty index +:+ "]".

(** Modelled from the spec: [getMeaningfulTypeof] (not in the sources at
    hand), the run-time type reported by a type mismatch. *)
Definition getMeaningfulTypeof (v : value) : string :=
  match v with
  | VUndefined => "undefined"
  | VNull => "null"
  | VBool _ => "boolean"
  | VNumber _ => "number"
  | VString _ => "string"
  | VArray _ => "array"
  | VObject _ => "object"
  end.

(** What invoking the error thunk returns. *)
Definition errorMessage (e : error) : string :=
  match e with
  | ExpectedArray found path => "Expected array, found " +:+ found +:+ atPath path
  | ArrayTooShort minLength len path =>
      "Expected an array with at least " +:+ pretty minLength
      +:+ " element(s), found an array with " +:+ pretty len
      +:+ " element(s)" +:+ atPath path
  | ArrayTooLong maxLength len path =>
      "Expected an array with at most " +:+ pretty maxLength
      +:+ " element(s), found an array with " +:+ pretty len
      +:+ " element(s)" +:+ atPath path
  | ChildError message => message
  end.

(** The error kinds of the array combinator's own length checks. *)
Definition isLengthViolation (r : InternalValidationResult) : bool :=
  match r with
  | Some (ArrayTooShort _ _ _) | Some (ArrayTooLong _ _ _) => true
  | _ => false
  end.

(** ** Effects *)

(** What a validation does besides returning: it invokes an item's validator
    (synchronous or asynchronous) at an item path, asks the caller's
    [shouldYield], suspends through the caller's [yield], and hands a
    message to the logger's [warn]. *)
Inductive event : Type :=
| ItemValidated (async : bool) (itemPath : string)
| ShouldYieldAsked (answer : bool)
| Yielded
| Warned (uniqueName message : string).

(** Process-wide state: the module-level [alreadyLogUpgradedWarnings] set of
    [upgraded.ts] and the history of events so far, oldest first. *)
Record world : Type := World {
  alreadyLogUpgradedWarnings : gset string;
  trace : list event
}.

Definition initialWorld : world :=
  {| alreadyLogUpgradedWarnings := ∅; trace := [] |}.

Definition M (A : Type) : Type := world -> A * world.

Definition ret {A} (a : A) : M A := fun w => (a, w).

Definition bind {A B} (m : M A) (k : A -> M B) : M B :=
  fun w => let '(a, w') := m w in k a w'.

Notation "'let*' x := m 'in' k" := (bind m (fun x => k))
  (at level 10, x pattern, m at level 200, k at level 200).

Definition emit (e : event) : M unit :=
  fun w => (tt, {| alreadyLogUpgradedWarnings := alreadyLogUpgradedWarnings w;
                   trace := trace w ++ [e] |}).

(** ** Validation options and schemas *)

Inductive validation_mode : Type := hard | soft | none.

Definition isHard (m : validation_mode) : bool :=
  match m with hard => true | _ => false end.
Definition isNone (m : validation_mode) : bool :=
  match m with none => true | _ => false end.

(** [InternalValidationOptions].  The caller's [shouldYield] may answer from
    anything that has happened so far, so it reads the history. *)
Record InternalValidationOptions : Type := {
  validation : validation_mode;
  shouldYield : list event -> bool
}.

(** [validatorOptions.shouldYield()] *)
Definition askShouldYield (o : InternalValidationOptions) : M bool :=
  fun w => let b := shouldYield o (trace w) in
           (b, {| alreadyLogUpgradedWarnings := alreadyLogUpgradedWarnings w;
                  trace := trace w ++ [ShouldYieldAsked b] |}).

(** [await validatorOptions.yield()] *)
Definition yield : M unit := emit Yielded.

Definition InternalValidator : Type :=
  value -> InternalValidationOptions -> string -> M InternalValidationResult.

(** What [makeInternalSchema] returns, as far as validation looks at it. *)
Record Schema : Type := makeInternalSchema {
  schemaType : string;
  estimatedValidationTimeComplexity : nat;
  usesCustomSerDes : bool;
  internalValidate : InternalValidator;
  internalValidateAsync : InternalValidator
}.

(** Modelled from the spec: a leaf schema kind (string and the like, whose
    sources are not at hand).  Its validator is a pure check that never
    suspends, and the asynchronous validator runs the same check. *)
Definition leaf (type : string) (cost : nat) (serDes : bool)
    (check : value -> validation_mode -> string -> InternalValidationResult)
  : Schema :=
  {| schemaType := type;
     estimatedValidationTimeComplexity := cost;
     usesCustomSerDes := serDes;
     internalValidate := fun v o path => ret (check v (validation o) path);
     internalValidateAsync := fun v o path => ret (check v (validation o) path) |}.

(** ** JavaScript numbers of the chunk computation *)

(** [asyncTimeComplexityThreshold / cost] on non-negative integers is a
    finite number, [Infinity] (a positive threshold over a zero cost) or
    [NaN] (zero over zero). *)
Inductive jsnumber : Type := Finite (n : nat) | Infinity | NaN.

(** [Math.floor(a / b)] *)
Definition floorDiv (a b : nat) : jsnumber :=
  match b with
  | 0 => match a with 0 => NaN | _ => Infinity end
  | _ => Finite (a / b)
  end.

(** [Math.max(1, x)] *)
Definition max1 (x : jsnumber) : jsnumber :=
  match x with
  | Finite n => Finite (Nat.max 1 n)
  | Infinity => Infinity
  | NaN => NaN
  end.

(** [index < chunkStartIndex + chunkSize] *)
Definition belowChunkEnd (index chunkStartIndex : nat) (chunkSize : jsnumber) : bool :=
  match chunkSize with
  | Finite k => index <? chunkStartIndex + k
  | Infinity => true
  | NaN => false
  end.

(** [chunkStartIndex += chunkSize]; [None] when the sum is [Infinity] or
    [NaN], for which the loop test [chunkStartIndex < numValues] is false. *)
Definition nextChunkStart (chunkStartIndex : nat) (chunkSize : jsnumber) : option nat :=
  match chunkSize with
  | Finite k => Some (chunkStartIndex + k)
  | _ => None
  end.

(** ** The array combinator *)

Definition ESTIMATED_AVG_ARRAY_LENGTH : nat := 100.

(** The [options] argument of [array]. *)
Record array_options : Type := {
  items : option Schema;
  minLength : option nat;
  maxLength : option nat;
  maxEntriesToValidate : option nat
}.

(** A function either returns early or carries on with the error slot
    [errorResult] ([None] for [undefined]). *)
Inductive flow : Type :=
| Return (result : InternalValidationResult)
| Continue (errorResult : InternalValidationResult).

(** [if (errorResult === undefined && cond) { errorResult = e;
      if (shouldStopOnFirstError) return errorResult; }] *)
Definition recordError (cond : bool) (e : error) (shouldStopOnFirstError : bool)
    (errorResult : InternalValidationResult) : flow :=
  match errorResult with
  | None =>
      if cond
      then if shouldStopOnFirstError then Return (Some e) else Continue (Some e)
      else Continue errorResult
  | Some _ => Continue errorResult
  end.

(** [if (errorResult === undefined && result.error !== undefined) {
      errorResult = result; if (shouldStopOnFirstError) return errorResult; }] *)
Definition recordResult (result : InternalValidationResult)
    (shouldStopOnFirstError : bool) (errorResult : InternalValidationResult) : flow :=
  match errorResult, result with
  | None, Some _ =>
      if shouldStopOnFirstError then Return result else Continue result
  | _, _ => Continue errorResult
  end.

(** [!needsDeepSerDes && maxEntriesToValidate !== undefined &&
     index >= maxEntriesToValidate] *)
Definition reachedMaxEntries (needsDeepSerDes : bool) (maxEntriesToValidate : option nat)
    (index : nat) : bool :=
  negb needsDeepSerDes &&
  match maxEntriesToValidate with
  | Some k => k <=? index
  | None => false
  end.

(** The call of an item's validator, recorded in the history. *)
Definition validateItem (async : bool) (items : Schema) (arrayItem : value)
    (validatorOptions : InternalValidationOptions) (itemPath : string)
  : M InternalValidationResult :=
  let* _ := emit (ItemValidated async itemPath) in
  (if async then internalValidateAsync items else internalValidate items)
    arrayItem validatorOptions itemPath.

Section ArrayWalk.

Variables (items : Schema) (maxEntriesToValidate : option nat)
          (needsDeepSerDes : bool) (path : string)
          (validatorOptions : InternalValidationOptions).

Let shouldStopOnFirstError : bool :=
  isHard (validation validatorOptions) || negb needsDeepSerDes.

(** The [for (const arrayItem of value)] loop of [validateArray], with its
    [index] counter. *)
Fixpoint validateItems (rest : list value) (index : nat)
    (errorResult : InternalValidationResult) : M flow :=
  match rest with
  | [] => ret (Continue errorResult)
  | arrayItem :: rest' =>
      if reachedMaxEntries needsDeepSerDes maxEntriesToValidate index
      then ret (Continue errorResult)
      else
        let* result := validateItem false items arrayItem validatorOptions
                         (appendPathIndex path index) in
        match recordResult result shouldStopOnFirstError errorResult with
        | Return r => ret (Return r)
        | Continue errorResult' => validateItems rest' (S index) errorResult'
        end
  end.

Variable asyncTimeComplexityThreshold : nat.
Variable value : list value.

Let numValues : nat := length value.

Let chunkSize : jsnumber :=
  max1 (floorDiv asyncTimeComplexityThreshold
                 (estimatedValidationTimeComplexity items)).

(** What [processChunk] returns: [false], the error slot, or [undefined]. *)
Inductive chunk_result : Type :=
| ChunkFalse
| ChunkError (result : InternalValidationResult)
| ChunkUndefined.

(** The [for (let index = chunkStartIndex; ...)] loop of [processChunk].
    [errorResult] is the variable of the enclosing function, so it is
    threaded through. *)
Fixpoint processChunkItems (fuel : nat) (chunkStartIndex index : nat)
    (errorResult : InternalValidationResult)
  : M (chunk_result * InternalValidationResult) :=
  match fuel with
  | 0 => ret (ChunkUndefined, errorResult)
  | S fuel' =>
      if (index <? numValues) && belowChunkEnd index chunkStartIndex chunkSize
      then
        let arrayItem := nth index value VUndefined in
        if reachedMaxEntries needsDeepSerDes maxEntriesToValidate index
        then ret (ChunkFalse, errorResult)
        else
          let* result := validateItem
                           (asyncTimeComplexityThreshold
                              <? estimatedValidationTimeComplexity items)
                           items arrayItem validatorOptions
                           (appendPathIndex path index) in
          match recordResult result shouldStopOnFirstError errorResult with
          | Return r => ret (ChunkError r, r)
          | Continue errorResult' =>
              processChunkItems fuel' chunkStartIndex (S index) errorResult'
          end
      else ret (ChunkUndefined, errorResult)
  end.

(** [processChunk]: yield when asked, then walk the chunk.  A chunk never
    holds more than [numValues] items, which bounds its loop. *)
Definition processChunk (chunkStartIndex : nat)
    (errorResult : InternalValidationResult)
  : M (chunk_result * InternalValidationResult) :=
  let* b := askShouldYield validatorOptions in
  let* _ := (if b then yield else ret tt) in
  processChunkItems numValues chunkStartIndex chunkStartIndex errorResult.

(** The [for (let chunkStartIndex = 0; ...)] loop of [asyncValidateArray].
    The statement [chunkRes;] of its last branch does nothing, so after a
    chunk that returned the error slot the loop goes on. *)
Fixpoint processChunks (fuel : nat) (chunkStartIndex : nat)
    (errorResult : InternalValidationResult) : M InternalValidationResult :=
  match fuel with
  | 0 => ret errorResult
  | S fuel' =>
      if chunkStartIndex <? numValues
      then
        let* (chunkRes, errorResult') := processChunk chunkStartIndex errorResult in
        match chunkRes with
        | ChunkFalse => ret errorResult'
        | ChunkError _ | ChunkUndefined =>
            match nextChunkStart chunkStartIndex chunkSize with
            | Some next => processChunks fuel' next errorResult'
            | None => ret errorResult'
            end
        end
      else ret errorResult
  end.

End ArrayWalk.

Section Array.

(** The value [getAsyncTimeComplexityThreshold()] returns; the
    configuration store is not part of the sources at hand. *)
Variable asyncTimeComplexityThreshold : nat.

(** [validateArray] *)
Definition validateArray (value : value) (options : array_options)
    (needsDeepSerDes : bool) (path : string)
    (validatorOptions : InternalValidationOptions)
  : M InternalValidationResult :=
  let minLength := default 0 (minLength options) in
  let shouldStopOnFirstError :=
    isHard (validation validatorOptions) || negb needsDeepSerDes in
  match value with
  | VArray elems =>
      if negb needsDeepSerDes && isNone (validation validatorOptions)
      then ret noError
      else
        match recordError (length elems <? minLength)
                (ArrayTooShort minLength (length elems) path)
                shouldStopOnFirstError None with
        | Return r => ret r
        | Continue errorResult =>
            match
              match maxLength options with
              | Some maxLength =>
                  recordError (maxLength <? length elems)
                    (ArrayTooLong maxLength (length elems) path)
                    shouldStopOnFirstError errorResult
              | None => Continue errorResult
              end
            with
            | Return r => ret r
            | Continue errorResult =>
                match items options with
                | Some items =>
                    let* f := validateItems items (maxEntriesToValidate options)
                                needsDeepSerDes path validatorOptions elems 0
                                errorResult in
                    match f with
                    | Return r => ret r
                    | Continue errorResult => ret errorResult
                    end
                | None => ret errorResult
                end
            end
        end
  | _ => ret (Some (ExpectedArray (getMeaningfulTypeof value) path))
  end.

(** [asyncValidateArray] *)
Definition asyncValidateArray (value : value) (options : array_options)
    (needsDeepSerDes : bool) (path : string)
    (validatorOptions : InternalValidationOptions)
  : M InternalValidationResult :=
  let minLength := default 0 (minLength options) in
  let shouldStopOnFirstError :=
    isHard (validation validatorOptions) || negb needsDeepSerDes in
  match value with
  | VArray elems =>
      if negb needsDeepSerDes && isNone (validation validatorOptions)
      then ret noError
      else
        match
          if negb (isNone (validation validatorOptions))
          then
            match recordError (length elems <? minLength)
                    (ArrayTooShort minLength (length elems) path)
                    shouldStopOnFirstError None with
            | Return r => Return r
            | Continue errorResult =>
                match maxLength options with
                | Some maxLength =>
                    recordError (maxLength <? length elems)
                      (ArrayTooLong maxLength (length elems) path)
                      shouldStopOnFirstError errorResult
                | None => Continue errorResult
                end
            end
          else Continue None
        with
        | Return r => ret r
        | Continue errorResult =>
            match items options with
            | None => ret errorResult
            | Some items =>
                processChunks items (maxEntriesToValidate options)
                  needsDeepSerDes path validatorOptions
                  asyncTimeComplexityThreshold elems (length elems) 0
                  errorResult
            end
        end
  | _ => ret (Some (ExpectedArray (getMeaningfulTypeof value) path))
  end.

(** [options.items?.usesCustomSerDes ?? false] *)
Definition needsDeepSerDesOf (options : array_options) : bool :=
  match items options with
  | Some items => usesCustomSerDes items
  | None => false
  end.

(** [array] *)
Definition array (options : array_options) : Schema :=
  let needsDeepSerDes := needsDeepSerDesOf options in
  {| schemaType := "array";
     estimatedValidationTimeComplexity :=
       match items options with
       | Some items => estimatedValidationTimeComplexity items
       | None => 1
       end
       * default ESTIMATED_AVG_ARRAY_LENGTH
           (if needsDeepSerDes then maxLength options
            else maxEntriesToValidate options);
     usesCustomSerDes := needsDeepSerDes;
     internalValidate := fun value validatorOptions path =>
       validateArray value options needsDeepSerDes path validatorOptions;
     internalValidateAsync := fun value validatorOptions path =>
       asyncValidateArray value options needsDeepSerDes path validatorOptions |}.

End Array.

(** ** The upgraded combinator *)

(** The template literal handed to [warn].  An absent or empty [deadline]
    is falsy. *)
Definition deprecationMessage (uniqueName : string) (deadline : option string) : string :=
  "[DEPRECATION] The schema for " +:+ uniqueName
  +:+ " has been upgraded and legacy support will be removed "
  +:+ match deadline with
      | None | Some EmptyString => "soon"
      | Some d => "after " +:+ d
      end
  +:+ ".".

Section Upgraded.

Variable asyncTimeComplexityThreshold : nat.

(** Whether the logger [getLogger()] returns has a [warn] method; the
    logging configuration is not part of the sources at hand. *)
Variable loggerHasWarn : bool.

(** [if (value !== undefined && !alreadyLogUpgradedWarnings.has(uniqueName)) {
      alreadyLogUpgradedWarnings.add(uniqueName); getLogger().warn?.(...); }] *)
Definition warnOnce (uniqueName : string) (deadline : option string)
    (value : value) : M unit :=
  fun w =>
    if isDefined value
       && negb (bool_decide (uniqueName ∈ alreadyLogUpgradedWarnings w))
    then
      let w' := {| alreadyLogUpgradedWarnings :=
                     {[ uniqueName ]} ∪ alreadyLogUpgradedWarnings w;
                   trace := trace w |} in
      if loggerHasWarn
      then emit (Warned uniqueName (deprecationMessage uniqueName deadline)) w'
      else (tt, w')
    else (tt, w).

(** The validator of a child the asynchronous path runs: the asynchronous
    one when the child's cost exceeds the threshold. *)
Definition validatorFor (child : Schema) : InternalValidator :=
  if asyncTimeComplexityThreshold <? estimatedValidationTimeComplexity child
  then internalValidateAsync child
  else internalValidate child.

(** The common shape of [internalValidate] and [internalValidateAsync] of
    [upgraded], which differ in the validators they call. *)
Definition upgradedValidate (uniqueName : string) (deadline : option string)
    (validateNew validateOld : InternalValidator) : InternalValidator :=
  fun value validatorOptions path =>
    let* newResult := validateNew value validatorOptions path in
    match newResult with
    | None => ret noError
    | Some _ =>
        let* oldResult := validateOld value validatorOptions path in
        match oldResult with
        | None =>
            let* _ := warnOnce uniqueName deadline value in
            ret noError
        | Some _ => ret oldResult
        end
    end.

(** [upgraded] *)
Definition upgraded (uniqueName : string) (old new : Schema)
    (deadline : option string) : Schema :=
  {| schemaType := "upgraded";
     estimatedValidationTimeComplexity :=
       estimatedValidationTimeComplexity old
       + estimatedValidationTimeComplexity new;
     usesCustomSerDes := usesCustomSerDes old || usesCustomSerDes new;
     internalValidate :=
       upgradedValidate uniqueName deadline
         (internalValidate new) (internalValidate old);
     internalValidateAsync :=
       upgradedValidate uniqueName deadline
         (validatorFor new) (validatorFor old) |}.

(** ** Schemas built from the three kinds *)

Inductive built : Schema -> Prop :=
| built_leaf type cost serDes check :
    built (leaf type cost serDes check)
| built_array options :
    (forall items', items options = Some items' -> built items') ->
    built (array asyncTimeComplexityThreshold options)
| built_upgraded uniqueName old new deadline :
    built old -> built new ->
    built (upgraded uniqueName old new deadline).

End Upgraded.

(** ** Notions the statements use *)

(** The verdict of the two length checks, in the order the code makes them:
    too short first, too long second. *)
Definition lengthError (options : array_options) (len : nat) (path : string)
  : InternalValidationResult :=
  let m := default 0 (minLength options) in
  if len <? m then Some (ArrayTooShort m len path)
  else match maxLength options with
       | Some mx => if mx <? len then Some (ArrayTooLong mx len path) else None
       | None => None
       end.

Definition withinBounds (options : array_options) (len : nat) : bool :=
  (default 0 (minLength options) <=? len)
  && match maxLength options with
     | Some mx => len <=? mx
     | None => true
     end.

(** The same options with both length bounds left out. *)
Definition withoutBounds (options : array_options) : array_options :=
  {| items := items options; minLength := None; maxLength := None;
     maxEntriesToValidate := maxEntriesToValidate options |}.

(** What the caller of a walk finally returns. *)
Definition flowResult (f : flow) : InternalValidationResult :=
  match f with Return r => r | Continue r => r end.

(** The validator [async] selects accepts item [x] at index [i], whatever
    the state of the process. *)
Definition itemAccepted (items : Schema) (path : string)
    (vo : InternalValidationOptions) (async : bool) (i : nat) (x : value) : Prop :=
  forall w,
    ((if async then internalValidateAsync items else internalValidate items)
       x vo (appendPathIndex path i) w).1 = None.

Definition itemRejected (items : Schema) (path : string)
    (vo : InternalValidationOptions) (async : bool) (i : nat) (x : value) : Prop :=
  forall w,
    ((if async then internalValidateAsync items else internalValidate items)
       x vo (appendPathIndex path i) w).1 <> None.

(** A computation preserves a property of the process. *)
Definition preserves (P : world -> Prop) {A} (m : M A) : Prop :=
  forall w, P w -> P (m w).2.

(** Spec wording: a value is valid per a schema when a leaf's check passes
    in every mode, when it is an array within the length bounds whose
    validated items (the first [maxEntriesToValidate] ones where the limit
    applies) are valid per the item schema, or when one of the two versions
    of an upgraded schema holds. *)
Inductive valid_per (threshold : nat) (loggerHasWarn : bool)
  : Schema -> value -> Prop :=
| valid_leaf type cost serDes check v :
    (forall mode path, check v mode path = noError) ->
    valid_per threshold loggerHasWarn (leaf type cost serDes check) v
| valid_array options elems :
    withinBounds options (length elems) = true ->
    (forall items' i x,
        items options = Some items' -> elems !! i = Some x ->
        reachedMaxEntries (needsDeepSerDesOf options)
          (maxEntriesToValidate options) i = false ->
        valid_per threshold loggerHasWarn items' x) ->
    valid_per threshold loggerHasWarn (array threshold options) (VArray elems)
| valid_upgraded_new uniqueName old new deadline v :
    valid_per threshold loggerHasWarn new v ->
    valid_per threshold loggerHasWarn
      (upgraded threshold loggerHasWarn uniqueName old new deadline) v
| valid_upgraded_old uniqueName old new deadline v :
    valid_per threshold loggerHasWarn old v ->
    valid_per threshold loggerHasWarn
      (upgraded threshold loggerHasWarn uniqueName old new deadline) v.

(** Spec wording: the representative length of an array schema is
    [maxEntriesToValidate] when the array skips serialization work,
    [maxLength] otherwise, and the default average length when that bound
    is not given. *)
Definition representativeLength (skipsSerialization : bool)
    (maxEntriesToValidate maxLength : option nat) : nat :=
  match skipsSerialization, maxEntriesToValidate, maxLength with
  | true, Some k, _ => k
  | false, _, Some m => m
  | _, _, _ => 100
  end.

(** ** Sequences of validations within one process *)








(** ** Chunks, as lists of item indices *)

(** Spec wording: the indices of chunk number [j] when [n] items are cut
    into consecutive chunks of [size]. *)
Definition chunkAt (n size j : nat) : list nat :=
  seq (j * size) (Nat.min size (n - j * size)).

(** The [ceil(n / size)] chunks of [n] items. *)
Definition chunksOfSize (n size : nat) : list (list nat) :=
  map (chunkAt n size) (seq 0 ((n + size - 1) / size)).

(** With an infinite chunk size every item is in the one chunk; with [NaN]
    the one chunk is empty. *)
Definition chunks (n : nat) (chunkSize : jsnumber) : list (list nat) :=
  match chunkSize with
  | Finite size => chunksOfSize n size
  | Infinity => match n with 0 => [] | _ => [seq 0 n] end
  | NaN => match n with 0 => [] | _ => [[]] end
  end.

(** One past the last index of the chunk starting at [chunkStartIndex]. *)
Definition chunkEnd (n chunkStartIndex : nat) (chunkSize : jsnumber) : nat :=
  match chunkSize with
  | Finite size => Nat.min n (chunkStartIndex + size)
  | Infinity => n
  | NaN => 0
  end.

Section ChunkedWalk.

Variables (items : Schema) (maxEntriesToValidate : option nat)
          (needsDeepSerDes : bool) (path : string)
          (validatorOptions : InternalValidationOptions)
          (asyncTimeComplexityThreshold : nat) (value : list value).

(** The loop of [processChunk] again, by recursion on the list of the
    chunk's indices instead of on the index counter; the body is the loop
    body of the source, error slot and early returns included. *)
Fixpoint walkChunk (indices : list nat) (errorResult : InternalValidationResult)
  : M (chunk_result * InternalValidationResult) :=
  match indices with
  | [] => ret (ChunkUndefined, errorResult)
  | index :: rest =>
      if reachedMaxEntries needsDeepSerDes maxEntriesToValidate index
      then ret (ChunkFalse, errorResult)
      else
        let* result := validateItem
                         (asyncTimeComplexityThreshold
                            <? estimatedValidationTimeComplexity items)
                         items (nth index value VUndefined) validatorOptions
                         (appendPathIndex path index) in
        match recordResult result
                (isHard (validation validatorOptions) || negb needsDeepSerDes)
                errorResult with
        | Return r => ret (ChunkError r, r)
        | Continue errorResult' => walkChunk rest errorResult'
        end
  end.

(** The chunk loop of [asyncValidateArray] again, by recursion on the list
    of chunks instead of on [chunkStartIndex].  This is the code, not the
    specification: as in the source, the statement [chunkRes;] lets the loop
    go on after a chunk that returned the error slot. *)
Fixpoint walkChunks (chunkList : list (list nat))
    (errorResult : InternalValidationResult) : M InternalValidationResult :=
  match chunkList with
  | [] => ret errorResult
  | chunk :: rest =>
      let* b := askShouldYield validatorOptions in
      let* _ := (if b then yield else ret tt) in
      let* (chunkRes, errorResult') := walkChunk chunk errorResult in
      match chunkRes with
      | ChunkFalse => ret errorResult'
      | ChunkError _ | ChunkUndefined => walkChunks rest errorResult'
      end
  end.

End ChunkedWalk.

(** ** The chunked walk, as the specification words it *)


Section ChunkByChunk.

Variables (items : Schema) (maxEntriesToValidate : option nat)
          (needsDeepSerDes : bool) (path : string)
          (validatorOptions : InternalValidationOptions)
          (asyncTimeComplexityThreshold : nat) (value : list value).





End ChunkByChunk.

(** ** Example schemas and inputs *)

(** Modelled from the spec: the string leaf as its tests describe it,
    accepting every non-empty string and nothing else. *)
Definition stringSchema : Schema :=
  leaf "string" 1 false (fun v _ path =>
    match v with
    | VString EmptyString =>
        Some (ChildError ("Expected a non-empty string" +:+ atPath path))
    | VString _ => noError
    | _ => Some (ChildError ("Expected string, found " +:+ getMeaningfulTypeof v
                             +:+ atPath path))
    end).

Definition hardOptions : InternalValidationOptions :=
  {| validation := hard; shouldYield := fun _ => false |}.

Definition arrayOf (items : Schema) : array_options :=
  {| items := Some items; minLength := None; maxLength := None;
     maxEntriesToValidate := None |}.

Definition withMode (m : validation_mode) : InternalValidationOptions :=
  {| validation := m; shouldYield := fun _ => false |}.

Definition optionsWith (items : option Schema)
    (minLength maxLength maxEntriesToValidate : option nat) : array_options :=
  {| items := items; minLength := minLength; maxLength := maxLength;
     maxEntriesToValidate := maxEntriesToValidate |}.

(** Modelled from the spec: a number leaf, for the upgrade scenario of the
    spec ([upgraded("userId", { old: numberSchema, new: stringSchema })]). *)
Definition numberSchema : Schema :=
  leaf "number" 1 false (fun v _ path =>
    match v with
    | VNumber _ => noError
    | _ => Some (ChildError ("Expected number, found " +:+ getMeaningfulTypeof v
                             +:+ atPath path))
    end).

(** Modelled from the spec: a leaf that needs custom (de)serialization, as a
    date does; it accepts the strings it can parse. *)
Definition dateSchema : Schema :=
  leaf "date" 1 true (fun v _ path =>
    match v with
    | VString _ => noError
    | _ => Some (ChildError ("Expected date, found " +:+ getMeaningfulTypeof v
                             +:+ atPath path))
    end).

(** An array of arrays of strings whose items cost more than the threshold,
    whatever the threshold is: each chunk holds one item. *)
Definition nestedStrings (threshold : nat) : Schema :=
  array threshold
    (arrayOf (array threshold
                (optionsWith (Some stringSchema) None None (Some (S threshold))))).

(** The upgrade scenario of the spec. *)
Definition userIdSchema : Schema :=
  upgraded 250 true "userId" numberSchema stringSchema None.


(** ** Outcomes, as functions of the item outcomes *)

Section FirstError.

Variables (r : nat -> value -> InternalValidationResult)
          (needsDeepSerDes : bool) (maxEntriesToValidate : option nat).

(** The first error among the items that get validated, in index order:
    [r index item] is the outcome of the item validator on the item at
    [index]; items from the [maxEntriesToValidate] limit on do not count. *)
Fixpoint firstItemError (rest : list value) (index : nat)
  : InternalValidationResult :=
  match rest with
  | [] => noError
  | arrayItem :: rest' =>
      if reachedMaxEntries needsDeepSerDes maxEntriesToValidate index
      then noError
      else match r index arrayItem with
           | Some e => Some e
           | None => firstItemError rest' (S index)
           end
  end.

(** An error already in the slot comes first. *)
Definition firstError (errorResult : InternalValidationResult)
    (rest : list value) (index : nat) : InternalValidationResult :=
  match errorResult with
  | Some e => Some e
  | None => firstItemError rest index
  end.

End FirstError.

(** The error an array validation reports: the type mismatch, else (unless
    the mode is none and nothing needs custom serialization) the length
    error, else the first item error. *)
Definition expectedArrayResult (r : nat -> value -> InternalValidationResult)
    (options : array_options) (needsDeepSerDes : bool) (mode : validation_mode)
    (path : string) (v : value) : InternalValidationResult :=
  match v with
  | VArray elems =>
      if negb needsDeepSerDes && isNone mode then noError
      else match lengthError options (length elems) path with
           | Some e => Some e
           | None =>
               match items options with
               | Some _ =>
                   firstItemError r needsDeepSerDes
                     (maxEntriesToValidate options) elems 0
               | None => noError
               end
           end
  | _ => Some (ExpectedArray (getMeaningfulTypeof v) path)
  end.

(** The outcome of the synchronous validator of [items] on the item at index
    [i] of the array at [path], read in a fresh process. *)
Definition itemOutcome (items : Schema) (vo : InternalValidationOptions)
    (path : string) (i : nat) (x : value) : InternalValidationResult :=
  (internalValidate items x vo (appendPathIndex path i) initialWorld).1.


(** The same options with [maxEntriesToValidate] left out. *)
Definition withoutMaxEntries (options : array_options) : array_options :=
  {| items := items options; minLength := minLength options;
     maxLength := maxLength options; maxEntriesToValidate := None |}.

(** The events of the cooperative scheduling. *)
Definition isScheduling (e : event) : bool :=
  match e with
  | ShouldYieldAsked _ | Yielded => true
  | _ => false
  end.

Definition isShouldYieldAsked (e : event) : bool :=
  match e with
  | ShouldYieldAsked _ => true
  | _ => false
  end.

(** How often [shouldYield] has been asked. *)
Definition pollCount (history : list event) : nat :=
  length (List.filter isShouldYieldAsked history).

(** * Properties *)

(** ** Running the monad *)

Lemma bind_run {A B} (m : M A) (k : A -> M B) (w : world) :
  (let* x := m in k x) w = k (m w).1 (m w).2.
Proof. unfold bind. destruct (m w); reflexivity. Qed.

Lemma ret_run {A} (a : A) (w : world) : ret a w = (a, w).
Proof. reflexivity. Qed.

(** ** The error slot is written once *)

Lemma recordResult_Some result stop e :
  recordResult result stop (Some e) = Continue (Some e).
Proof. reflexivity. Qed.

Lemma recordResult_noError stop errorResult :
  recordResult None stop errorResult = Continue errorResult.
Proof. destruct errorResult; reflexivity. Qed.

Section SlotWritten.

Variables (items : Schema) (cap : option nat) (needs : bool) (path : string)
          (vo : InternalValidationOptions).

Lemma validateItems_slot_Some rest index e w :
  (validateItems items cap needs path vo rest index (Some e) w).1
  = Continue (Some e).
Proof.
  revert index w. induction rest as [|x rest IH]; intros index w; simpl.
  - reflexivity.
  - destruct (reachedMaxEntries needs cap index); [reflexivity|].
    rewrite bind_run. apply IH.
Qed.

Variables (threshold : nat) (value : list value).

Lemma processChunkItems_slot_Some fuel c index e w :
  (processChunkItems items cap needs path vo threshold value fuel c index
     (Some e) w).1.2 = Some e.
Proof.
  revert index w. induction fuel as [|fuel IH]; intros index w; simpl.
  - reflexivity.
  - destruct (_ && _); [|reflexivity].
    destruct (reachedMaxEntries needs cap index); [reflexivity|].
    rewrite bind_run. apply IH.
Qed.

Lemma processChunk_slot_Some c e w :
  (processChunk items cap needs path vo threshold value c (Some e) w).1.2
  = Some e.
Proof.
  unfold processChunk. rewrite !bind_run. apply processChunkItems_slot_Some.
Qed.

Lemma processChunks_slot_Some fuel c e w :
  (processChunks items cap needs path vo threshold value fuel c (Some e) w).1
  = Some e.
Proof.
  revert c w. induction fuel as [|fuel IH]; intros c w; simpl.
  - reflexivity.
  - destruct (c <? length value); [|reflexivity].
    rewrite bind_run.
    pose proof (processChunk_slot_Some c e w) as Hs.
    destruct (processChunk _ _ _ _ _ _ _ c (Some e) w) as [[res slot] w'].
    simpl in Hs. subst slot. simpl.
    destruct res; try reflexivity;
      destruct (nextChunkStart _ _); try reflexivity; apply IH.
Qed.

End SlotWritten.

(** ** Length bounds *)


Lemma lengthError_withinBounds options len path :
  withinBounds options len = true <-> lengthError options len path = None.
Proof.
  unfold withinBounds, lengthError.
  destruct (Nat.ltb_spec len (default 0 (minLength options)));
    destruct (Nat.leb_spec (default 0 (minLength options)) len); try lia;
    simpl; [split; discriminate|].
  destruct (maxLength options) as [mx|]; [|tauto].
  destruct (Nat.ltb_spec mx len); destruct (Nat.leb_spec len mx); try lia;
    split; congruence.
Qed.

Section Bounds.

Variables (threshold : nat) (options : array_options) (needs : bool)
          (elems : list value) (path : string)
          (o : InternalValidationOptions).

Lemma validateArray_lengthError e w :
  negb needs && isNone (validation o) = false ->
  lengthError options (length elems) path = Some e ->
  (validateArray (VArray elems) options needs path o w).1 = Some e.
Proof.
  intros Hguard He. unfold validateArray, lengthError in *. rewrite Hguard.
  destruct (length elems <? default 0 (minLength options)); simpl.
  - injection He as <-.
    destruct (isHard (validation o) || negb needs); simpl; [reflexivity|].
    destruct (maxLength options); simpl;
      (destruct (items options); [|reflexivity]);
      rewrite bind_run, validateItems_slot_Some; reflexivity.
  - destruct (maxLength options) as [mx|]; [|discriminate]. simpl.
    destruct (mx <? length elems); [|discriminate]. injection He as <-.
    destruct (isHard (validation o) || negb needs); simpl; [reflexivity|].
    destruct (items options); [|reflexivity].
    rewrite bind_run, validateItems_slot_Some; reflexivity.
Qed.

Lemma validateArray_withinBounds w :
  lengthError options (length elems) path = None ->
  validateArray (VArray elems) options needs path o w
  = validateArray (VArray elems) (withoutBounds options) needs path o w.
Proof.
  intros He. unfold validateArray, lengthError in *. simpl.
  destruct (negb needs && isNone (validation o)); [reflexivity|].
  destruct (length elems <? default 0 (minLength options)); [discriminate|].
  simpl.
  destruct (maxLength options) as [mx|]; [|reflexivity].
  destruct (mx <? length elems); [discriminate|]. reflexivity.
Qed.

Lemma asyncValidateArray_lengthError e w :
  negb needs && isNone (validation o) = false ->
  isNone (validation o) = false ->
  lengthError options (length elems) path = Some e ->
  (asyncValidateArray threshold (VArray elems) options needs path o w).1
  = Some e.
Proof.
  intros Hguard Hmode He. unfold asyncValidateArray, lengthError in *.
  rewrite Hguard, Hmode. simpl.
  destruct (length elems <? default 0 (minLength options)); simpl.
  - injection He as <-.
    destruct (isHard (validation o) || negb needs); simpl; [reflexivity|].
    destruct (maxLength options); simpl;
      (destruct (items options); [|reflexivity]);
      apply processChunks_slot_Some.
  - destruct (maxLength options) as [mx|]; [|discriminate]. simpl.
    destruct (mx <? length elems); [|discriminate]. injection He as <-.
    destruct (isHard (validation o) || negb needs); simpl; [reflexivity|].
    destruct (items options); [|reflexivity].
    apply processChunks_slot_Some.
Qed.

Lemma asyncValidateArray_withinBounds w :
  lengthError options (length elems) path = None ->
  asyncValidateArray threshold (VArray elems) options needs path o w
  = asyncValidateArray threshold (VArray elems) (withoutBounds options)
      needs path o w.
Proof.
  intros He. unfold asyncValidateArray, lengthError in *. simpl.
  destruct (negb needs && isNone (validation o)); [reflexivity|].
  destruct (isNone (validation o)); [reflexivity|]. simpl.
  destruct (length elems <? default 0 (minLength options)); [discriminate|].
  simpl.
  destruct (maxLength options) as [mx|]; [|reflexivity].
  destruct (mx <? length elems); [discriminate|]. reflexivity.
Qed.

Lemma asyncValidateArray_none_ignores_bounds w :
  validation o = none ->
  asyncValidateArray threshold (VArray elems) options needs path o w
  = asyncValidateArray threshold (VArray elems) (withoutBounds options)
      needs path o w.
Proof.
  intros Hmode. unfold asyncValidateArray. rewrite Hmode. simpl.
  destruct (negb needs && true); reflexivity.
Qed.

End Bounds.

(** ** Walking the items *)


Lemma validateItem_run async items x vo p w :
  validateItem async items x vo p w
  = (if async then internalValidateAsync items else internalValidate items)
      x vo p (emit (ItemValidated async p) w).2.
Proof. unfold validateItem. rewrite bind_run. reflexivity. Qed.

Lemma max1_Finite x k : max1 x = Finite k -> 1 <= k.
Proof. destruct x; simpl; intros H; inversion H; lia. Qed.

Lemma max1_floorDiv_NaN threshold cost :
  max1 (floorDiv threshold cost) = NaN <-> threshold = 0 /\ cost = 0.
Proof.
  unfold floorDiv. destruct cost; [destruct threshold|]; simpl;
    split; try discriminate; try tauto; intros [? ?]; discriminate.
Qed.

Section Walk.

Variables (items : Schema) (cap : option nat) (needs : bool) (path : string)
          (vo : InternalValidationOptions).


Lemma validateItems_accept rest index w :
  (forall i x, rest !! i = Some x ->
               reachedMaxEntries needs cap (index + i) = false ->
               itemAccepted items path vo false (index + i) x) ->
  (validateItems items cap needs path vo rest index None w).1 = Continue None.
Proof.
  revert index w. induction rest as [|x rest IH]; intros index w Hacc;
    cbn [validateItems].
  - reflexivity.
  - destruct (reachedMaxEntries needs cap index) eqn:Hcap; [reflexivity|].
    rewrite bind_run, validateItem_run.
    pose proof (Hacc 0 x eq_refl) as H0. rewrite Nat.add_0_r in H0.
    specialize (H0 Hcap). unfold itemAccepted in H0. rewrite H0.
    rewrite recordResult_noError. apply IH.
    intros i y Hy Hc. replace (S index + i) with (index + S i) in * by lia.
    apply Hacc; assumption.
Qed.

Lemma validateItems_reject rest index slot j x w :
  (forall i, reachedMaxEntries needs cap i = false) ->
  rest !! j = Some x ->
  itemRejected items path vo false (index + j) x ->
  flowResult (validateItems items cap needs path vo rest index slot w).1
  <> None.
Proof.
  intros Hcap. destruct slot as [e|].
  { intros _ _. rewrite validateItems_slot_Some. discriminate. }
  revert index j w. induction rest as [|y rest IH]; intros index j w Hj Hrej.
  - discriminate.
  - cbn [validateItems]. rewrite Hcap, bind_run, validateItem_run.
    destruct j as [|j].
    + injection Hj as ->. rewrite Nat.add_0_r in Hrej.
      specialize (Hrej (emit (ItemValidated false (appendPathIndex path index)) w).2).
      cbn beta iota in Hrej.
      destruct (internalValidate items x vo _ _) as [[e|] w']; [|done].
      cbn. destruct (isHard (validation vo) || negb needs); cbn.
      * discriminate.
      * rewrite validateItems_slot_Some. discriminate.
    + cbn in Hj.
      destruct (internalValidate items y vo _ _) as [[e|] w'].
      * cbn. destruct (isHard (validation vo) || negb needs); cbn.
        -- discriminate.
        -- rewrite validateItems_slot_Some. discriminate.
      * cbn [fst snd]. rewrite recordResult_noError. apply (IH (S index) j); [assumption|].
        replace (S index + j) with (index + S j) by lia. assumption.
Qed.

End Walk.

Section AsyncWalk.

Variables (items : Schema) (cap : option nat) (needs : bool) (path : string)
          (vo : InternalValidationOptions) (threshold : nat)
          (value : list value).

Let async : bool := threshold <? estimatedValidationTimeComplexity items.
Let cs : jsnumber :=
  max1 (floorDiv threshold (estimatedValidationTimeComplexity items)).

Lemma belowChunkEnd_le i j c :
  i <= j -> belowChunkEnd j c cs = true -> belowChunkEnd i c cs = true.
Proof.
  unfold belowChunkEnd. destruct cs; try done.
  intros Hij Hj. apply Nat.ltb_lt in Hj. apply Nat.ltb_lt. lia.
Qed.

Lemma processChunkItems_accept fuel c index w :
  (forall i x, value !! i = Some x ->
               reachedMaxEntries needs cap i = false ->
               itemAccepted items path vo async i x) ->
  (processChunkItems items cap needs path vo threshold value fuel c index
     None w).1.2 = None.
Proof.
  intros Hacc. revert index w.
  induction fuel as [|fuel IH]; intros index w; cbn [processChunkItems].
  - reflexivity.
  - destruct (Nat.ltb_spec index (length value)) as [Hlt|]; [|reflexivity].
    destruct (belowChunkEnd _ _ _); [|reflexivity]. cbn [andb].
    destruct (reachedMaxEntries needs cap index) eqn:Hcap; [reflexivity|].
    rewrite bind_run, validateItem_run.
    destruct (lookup_lt_is_Some_2 value index Hlt) as [x Hx].
    rewrite (nth_lookup_Some _ _ VUndefined _ Hx).
    pose proof (Hacc index x Hx Hcap) as H0. unfold itemAccepted in H0.
    fold async. rewrite H0, recordResult_noError. apply IH.
Qed.

Lemma processChunks_accept fuel c w :
  (forall i x, value !! i = Some x ->
               reachedMaxEntries needs cap i = false ->
               itemAccepted items path vo async i x) ->
  (processChunks items cap needs path vo threshold value fuel c None w).1
  = None.
Proof.
  intros Hacc. revert c w.
  induction fuel as [|fuel IH]; intros c w; cbn [processChunks].
  - reflexivity.
  - destruct (c <? length value); [|reflexivity].
    rewrite bind_run. unfold processChunk at 1 2. rewrite !bind_run.
    match goal with
    | |- context [processChunkItems _ _ _ _ _ _ _ ?f ?a ?b None ?w0] =>
        pose proof (processChunkItems_accept f a b w0 Hacc) as Hs;
        destruct (processChunkItems items cap needs path vo threshold value
                    f a b None w0) as [[res slot] w']
    end.
    cbn in Hs. subst slot. cbn [fst snd].
    destruct res; try reflexivity;
      destruct (nextChunkStart _ _); try reflexivity; apply IH.
Qed.

Lemma processChunkItems_not_false fuel c index slot w :
  (forall i, reachedMaxEntries needs cap i = false) ->
  (processChunkItems items cap needs path vo threshold value fuel c index
     slot w).1.1 <> ChunkFalse.
Proof.
  intros Hcap. revert index slot w.
  induction fuel as [|fuel IH]; intros index slot w; cbn [processChunkItems].
  - discriminate.
  - destruct (_ && _); [|discriminate]. rewrite Hcap, bind_run.
    destruct (recordResult _ _ _); [discriminate|apply IH].
Qed.

Lemma processChunkItems_reject fuel c index slot j x w :
  (forall i, reachedMaxEntries needs cap i = false) ->
  value !! j = Some x ->
  itemRejected items path vo async j x ->
  index <= j -> belowChunkEnd j c cs = true -> j - index < fuel ->
  (processChunkItems items cap needs path vo threshold value fuel c index
     slot w).1.2 <> None.
Proof.
  intros Hcap Hj Hrej. destruct slot as [e|].
  { intros _ _ _. rewrite processChunkItems_slot_Some. discriminate. }
  revert index w.
  induction fuel as [|fuel IH]; intros index w Hle Hbelow Hfuel;
    [lia|cbn [processChunkItems]].
  pose proof (lookup_lt_Some _ _ _ Hj) as Hjn.
  destruct (Nat.ltb_spec index (length value)) as [Hlt|]; [|lia].
  fold cs. rewrite (belowChunkEnd_le index j c Hle Hbelow). cbn [andb].
  rewrite Hcap, bind_run, validateItem_run. fold async.
  unfold itemRejected in Hrej.
  set (iv := if async then internalValidateAsync items
             else internalValidate items) in *.
  destruct (decide (index = j)) as [->|Hne].
  - rewrite (nth_lookup_Some _ _ VUndefined _ Hj).
    specialize (Hrej (emit (ItemValidated async (appendPathIndex path j)) w).2).
    destruct (iv x vo _ _) as [[e|] w']; [|done].
    cbn. destruct (isHard (validation vo) || negb needs); cbn.
    + discriminate.
    + rewrite processChunkItems_slot_Some. discriminate.
  - destruct (iv (nth index value VUndefined) vo _ _) as [[e|] w'].
    + cbn. destruct (isHard (validation vo) || negb needs); cbn.
      * discriminate.
      * rewrite processChunkItems_slot_Some. discriminate.
    + cbn [fst snd]. rewrite recordResult_noError.
      apply IH; [lia|assumption|lia].
Qed.

Lemma processChunks_reject fuel c slot j x w :
  (forall i, reachedMaxEntries needs cap i = false) ->
  cs <> NaN ->
  value !! j = Some x ->
  itemRejected items path vo async j x ->
  c <= j -> length value - c <= fuel ->
  (processChunks items cap needs path vo threshold value fuel c slot w).1
  <> None.
Proof.
  intros Hcap HNaN Hj Hrej. destruct slot as [e|].
  { intros _ _. rewrite processChunks_slot_Some. discriminate. }
  pose proof (lookup_lt_Some _ _ _ Hj) as Hjn.
  revert c w.
  induction fuel as [|fuel IH]; intros c w Hle Hfuel; [lia|].
  cbn [processChunks].
  destruct (Nat.ltb_spec c (length value)) as [Hlt|]; [|lia].
  rewrite bind_run. unfold processChunk at 1 2. rewrite !bind_run.
  match goal with
  | |- context [processChunkItems _ _ _ _ _ _ _ ?f ?a ?b None ?w0] =>
      pose proof (processChunkItems_not_false f a b None w0 Hcap) as Hnf;
      pose proof (fun H1 H2 =>
        processChunkItems_reject f a b None j x w0 Hcap Hj Hrej Hle H1 H2) as Hin;
      destruct (processChunkItems items cap needs path vo threshold value
                  f a b None w0) as [[res slot] w']
  end.
  cbn [fst snd] in *. fold cs.
  assert (Hsome : slot <> None ->
    (match res with
     | ChunkFalse => ret slot
     | _ => match nextChunkStart c cs with
            | Some next =>
                processChunks items cap needs path vo threshold value fuel
                  next slot
            | None => ret slot
            end
     end w').1 <> None).
  { intros Hs. destruct slot as [e|]; [|done].
    destruct res; try discriminate;
      destruct (nextChunkStart c cs); try discriminate;
      rewrite processChunks_slot_Some; discriminate. }
  destruct (belowChunkEnd j c cs) eqn:Hbelow.
  - apply Hsome, Hin; [reflexivity|lia].
  - destruct slot as [e|]; [apply Hsome; discriminate|].
    unfold belowChunkEnd, nextChunkStart in *.
    destruct cs as [k| |] eqn:Hcs; [|discriminate|done].
    apply Nat.ltb_ge in Hbelow.
    pose proof (max1_Finite _ _ Hcs) as Hk.
    destruct res; [done| |]; apply IH; lia.
Qed.

End AsyncWalk.

(** ** Arrays whose validated items are all accepted *)

Lemma validateArray_accepts options needs elems path vo w :
  withinBounds options (length elems) = true ->
  (forall items' i x,
      items options = Some items' -> elems !! i = Some x ->
      reachedMaxEntries needs (maxEntriesToValidate options) i = false ->
      itemAccepted items' path vo false i x) ->
  (validateArray (VArray elems) options needs path vo w).1 = noError.
Proof.
  intros Hb Hacc.
  rewrite validateArray_withinBounds
    by (apply lengthError_withinBounds; exact Hb).
  unfold validateArray. cbn.
  destruct (negb needs && isNone (validation vo)); [reflexivity|].
  destruct (items options) as [items'|]; [|reflexivity].
  rewrite bind_run, validateItems_accept; [reflexivity|].
  intros i x Hx Hcap. cbn. apply (Hacc items' i x); auto.
Qed.

Lemma asyncValidateArray_accepts threshold options needs elems path vo w :
  withinBounds options (length elems) = true ->
  (forall items' i x,
      items options = Some items' -> elems !! i = Some x ->
      reachedMaxEntries needs (maxEntriesToValidate options) i = false ->
      itemAccepted items' path vo
        (threshold <? estimatedValidationTimeComplexity items') i x) ->
  (asyncValidateArray threshold (VArray elems) options needs path vo w).1
  = noError.
Proof.
  intros Hb Hacc.
  rewrite asyncValidateArray_withinBounds
    by (apply lengthError_withinBounds; exact Hb).
  unfold asyncValidateArray. cbn.
  destruct (negb needs && isNone (validation vo)); [reflexivity|].
  destruct (items options) as [items'|].
  - destruct (negb (isNone (validation vo)));
      apply processChunks_accept; intros i x Hx Hcap; apply Hacc; auto.
  - destruct (negb (isNone (validation vo))); reflexivity.
Qed.

(** ** The upgraded combinator, step by step *)

Lemma upgradedValidate_run lw uniqueName deadline vNew vOld v o path w :
  upgradedValidate lw uniqueName deadline vNew vOld v o path w
  = match (vNew v o path w).1 with
    | None => (noError, (vNew v o path w).2)
    | Some _ =>
        let w1 := (vNew v o path w).2 in
        match (vOld v o path w1).1 with
        | None => (noError, (warnOnce lw uniqueName deadline v
                               (vOld v o path w1).2).2)
        | Some e => (Some e, (vOld v o path w1).2)
        end
    end.
Proof.
  unfold upgradedValidate. rewrite bind_run.
  destruct (vNew v o path w) as [[e|] w1]; cbn [fst snd]; [|reflexivity].
  rewrite bind_run.
  destruct (vOld v o path w1) as [[e'|] w2]; cbn [fst snd]; [reflexivity|].
  rewrite bind_run. reflexivity.
Qed.

(** C3: a value that is valid per a schema built from the leaf, array and
    upgraded kinds is reported error-free by the synchronous validator and
    by the asynchronous validator alike, in every mode, at every path and
    from every state of the process. *)
Theorem valid_accepted_sync_and_async threshold loggerHasWarn S V :
  valid_per threshold loggerHasWarn S V ->
  forall o path w,
    (internalValidate S V o path w).1 = noError
    /\ (internalValidateAsync S V o path w).1 = noError.
Proof.
  induction 1 as [type cost serDes check v Hcheck
                 | options elems Hb Hitems IH
                 | uniqueName old new deadline v Hnew IH
                 | uniqueName old new deadline v Hold IH];
    intros o path w.
  - cbn. split; apply Hcheck.
  - split; cbn [array internalValidate internalValidateAsync].
    + apply validateArray_accepts; [exact Hb|].
      intros items' i x Hi Hx Hcap w'. apply (IH items' i x Hi Hx Hcap).
    + apply asyncValidateArray_accepts; [exact Hb|].
      intros items' i x Hi Hx Hcap w'.
      destruct (threshold <? _); apply (IH items' i x Hi Hx Hcap).
  - split; cbn [upgraded internalValidate internalValidateAsync];
      rewrite upgradedValidate_run.
    + rewrite (proj1 (IH o path w)). reflexivity.
    + unfold validatorFor.
      destruct (threshold <? estimatedValidationTimeComplexity new);
        [rewrite (proj2 (IH o path w))|rewrite (proj1 (IH o path w))];
        reflexivity.
  - split; cbn [upgraded internalValidate internalValidateAsync];
      rewrite upgradedValidate_run.
    + destruct (internalValidate new v o path w).1; [|reflexivity].
      cbn zeta. rewrite (proj1 (IH o path _)). reflexivity.
    + unfold validatorFor.
      destruct ((if threshold <? estimatedValidationTimeComplexity new
                 then internalValidateAsync new else internalValidate new)
                  v o path w).1; [|reflexivity].
      cbn zeta.
      destruct (threshold <? estimatedValidationTimeComplexity old);
        [rewrite (proj2 (IH o path _))|rewrite (proj1 (IH o path _))];
        reflexivity.
Qed.

Lemma valid_three_strings :
  valid_per 250 true
    (array 250 (optionsWith (Some stringSchema) (Some 2) (Some 4) None))
    (VArray [VString "a"; VString "b"; VString "c"]).
Proof.
  apply valid_array; [reflexivity|].
  intros items' i x Hi Hx _. injection Hi as <-.
  unfold stringSchema.
  destruct i as [|[|[|i]]]; cbn in Hx; try discriminate;
    injection Hx as <-; apply valid_leaf; reflexivity.
Qed.

Lemma valid_accepted_sync_and_async_witness :
  let S := array 250 (optionsWith (Some stringSchema) (Some 2) (Some 4) None) in
  let V := VArray [VString "a"; VString "b"; VString "c"] in
  valid_per 250 true S V
  /\ (internalValidate S V hardOptions "" initialWorld).1 = noError
  /\ (internalValidateAsync S V hardOptions "" initialWorld).1 = noError.
Proof.
  split; [exact valid_three_strings|].
  apply (valid_accepted_sync_and_async 250 true _ _ valid_three_strings).
Defined.

(** C2: the cost of an array schema is the item cost (1 without an item
    schema) times the representative length: [maxEntriesToValidate] when the
    array skips serialization work, [maxLength] otherwise, 100 when that
    bound is not given. *)
Theorem array_cost_is_item_cost_times_length threshold options :
  estimatedValidationTimeComplexity (array threshold options)
  = match items options with
    | Some items' => estimatedValidationTimeComplexity items'
    | None => 1
    end
    * representativeLength (negb (usesCustomSerDes (array threshold options)))
        (maxEntriesToValidate options) (maxLength options).
Proof.
  cbn. f_equal. unfold representativeLength, ESTIMATED_AVG_ARRAY_LENGTH.
  destruct (needsDeepSerDesOf options); cbn;
    destruct (maxEntriesToValidate options), (maxLength options); reflexivity.
Qed.

(** C10: an array schema without an item schema accepts every array within
    the length bounds, synchronously and asynchronously, and leaves the
    process as it found it: no item is ever looked at. *)
Theorem array_without_items_accepts threshold options elems o path w :
  items options = None ->
  withinBounds options (length elems) = true ->
  internalValidate (array threshold options) (VArray elems) o path w
  = (noError, w)
  /\ internalValidateAsync (array threshold options) (VArray elems) o path w
     = (noError, w).
Proof.
  intros Hitems Hb. apply (lengthError_withinBounds _ _ path) in Hb.
  cbn [array internalValidate internalValidateAsync].
  rewrite validateArray_withinBounds, asyncValidateArray_withinBounds by exact Hb.
  unfold validateArray, asyncValidateArray, needsDeepSerDesOf. cbn.
  rewrite Hitems. cbn.
  destruct (isNone (validation o)); split; reflexivity.
Qed.

Lemma array_without_items_accepts_witness :
  let options := optionsWith None (Some 1) (Some 3) None in
  let elems := [VNumber 7; VNull] in
  items options = None
  /\ withinBounds options (length elems) = true
  /\ internalValidate (array 250 options) (VArray elems) hardOptions ""
       initialWorld = (noError, initialWorld)
  /\ internalValidateAsync (array 250 options) (VArray elems) hardOptions ""
       initialWorld = (noError, initialWorld).
Proof.
  split; [reflexivity|]. split; [reflexivity|].
  apply (array_without_items_accepts 250
           (optionsWith None (Some 1) (Some 3) None) [VNumber 7; VNull]
           hardOptions "" initialWorld); reflexivity.
Defined.

(** C4: the upgraded combinator runs the new schema's validator first; when
    it accepts, the outcome is no error and the process is as the new
    validator left it (nothing is logged).  Otherwise it runs the old
    schema's validator next, and when that rejects too, the outcome is the
    old validator's error.  The synchronous path runs the children's
    synchronous validators; the asynchronous path runs, for each child, its
    asynchronous validator when the child's cost exceeds the threshold and
    its synchronous validator otherwise. *)
Theorem upgraded_new_first_then_old threshold loggerHasWarn uniqueName old new
    deadline v o path w :
  let S := upgraded threshold loggerHasWarn uniqueName old new deadline in
  let agrees (validateNew validateOld : InternalValidator)
             (outcome : InternalValidationResult * world) : Prop :=
    let n := validateNew v o path w in
    match n.1 with
    | None => outcome = (noError, n.2)
    | Some newError =>
        let od := validateOld v o path n.2 in
        match od.1 with
        | Some oldError => outcome = (Some oldError, od.2)
        | None => outcome.1 = noError
        end
    end in
  let ofAsyncPath (child : Schema) : InternalValidator :=
    if threshold <? estimatedValidationTimeComplexity child
    then internalValidateAsync child
    else internalValidate child in
  agrees (internalValidate new) (internalValidate old)
         (internalValidate S v o path w)
  /\ agrees (ofAsyncPath new) (ofAsyncPath old)
            (internalValidateAsync S v o path w).
Proof.
  cbn [upgraded internalValidate internalValidateAsync].
  split; rewrite upgradedValidate_run; unfold validatorFor; cbn zeta.
  - destruct (internalValidate new v o path w).1; [|reflexivity].
    destruct (internalValidate old v o path _).1; reflexivity.
  - destruct ((if threshold <? estimatedValidationTimeComplexity new
               then internalValidateAsync new else internalValidate new)
                v o path w).1; [|reflexivity].
    destruct ((if threshold <? estimatedValidationTimeComplexity old
               then internalValidateAsync old else internalValidate old)
                v o path _).1; reflexivity.
Qed.

(** ** Length violations *)

Lemma tooShort_tooLong_messages_differ m len p mx len' p' :
  errorMessage (ArrayTooShort m len p) <> errorMessage (ArrayTooLong mx len' p').
Proof. cbn. intros H. discriminate H. Qed.

(** C8, as amended: in the validating modes (hard and soft) an array shorter
    than [minLength] is rejected with the too-short error by both
    validators, and an array longer than [maxLength] (and not too short)
    with the too-long error.  In every mode an array within the bounds gets
    exactly the outcome of the same schema without bounds, so it is never
    rejected on length grounds.  The two length errors read differently, and
    a call returns one result. *)
Theorem array_length_bounds threshold options elems o path w :
  let S := array threshold options in
  let unbounded := array threshold (withoutBounds options) in
  let m := default 0 (minLength options) in
  let len := length elems in
  let both (e : error) : Prop :=
    (internalValidate S (VArray elems) o path w).1 = Some e
    /\ (internalValidateAsync S (VArray elems) o path w).1 = Some e in
  let asUnbounded : Prop :=
    internalValidate S (VArray elems) o path w
    = internalValidate unbounded (VArray elems) o path w
    /\ internalValidateAsync S (VArray elems) o path w
       = internalValidateAsync unbounded (VArray elems) o path w in
  (if len <? m then validation o <> none -> both (ArrayTooShort m len path)
   else match maxLength options with
        | Some mx =>
            if mx <? len
            then validation o <> none -> both (ArrayTooLong mx len path)
            else asUnbounded
        | None => asUnbounded
        end)
  /\ (forall m len p mx len' p',
         errorMessage (ArrayTooShort m len p)
         <> errorMessage (ArrayTooLong mx len' p')).
Proof.
  cbn zeta. split; [|apply tooShort_tooLong_messages_differ].
  assert (Hguard : validation o <> none ->
            isNone (validation o) = false
            /\ forall needs, negb needs && isNone (validation o) = false).
  { intros Hmode.
    assert (HisNone : isNone (validation o) = false)
      by (destruct (validation o); [reflexivity|reflexivity|done]).
    split; [exact HisNone|].
    intros needs. rewrite HisNone. apply andb_false_r. }
  cbn [array internalValidate internalValidateAsync].
  destruct (length elems <? default 0 (minLength options)) eqn:Hshort.
  - intros Hmode. destruct (Hguard Hmode) as [HisNone Hg].
    split; [apply validateArray_lengthError
           |apply asyncValidateArray_lengthError]; auto;
      unfold lengthError; rewrite Hshort; reflexivity.
  - destruct (maxLength options) as [mx|] eqn:Hmax.
    + destruct (mx <? length elems) eqn:Hlong.
      * intros Hmode. destruct (Hguard Hmode) as [HisNone Hg].
        split; [apply validateArray_lengthError
               |apply asyncValidateArray_lengthError]; auto;
          unfold lengthError; rewrite Hshort, Hmax, Hlong; reflexivity.
      * split; [apply validateArray_withinBounds
               |apply asyncValidateArray_withinBounds];
          unfold lengthError; rewrite Hshort, Hmax, Hlong; reflexivity.
    + split; [apply validateArray_withinBounds
             |apply asyncValidateArray_withinBounds];
        unfold lengthError; rewrite Hshort, Hmax; reflexivity.
Qed.

Lemma array_length_bounds_witness :
  let options := optionsWith (Some stringSchema) (Some 2) (Some 4) None in
  validation hardOptions <> none
  /\ (internalValidate (array 250 options) (VArray [VString "a"]) hardOptions
        "" initialWorld).1 = Some (ArrayTooShort 2 1 "")
  /\ (internalValidateAsync (array 250 options) (VArray [VString "a"])
        hardOptions "" initialWorld).1 = Some (ArrayTooShort 2 1 "").
Proof.
  assert (Hmode : validation hardOptions <> none) by discriminate.
  split; [exact Hmode|].
  exact (proj1 (array_length_bounds 250
                  (optionsWith (Some stringSchema) (Some 2) (Some 4) None)
                  [VString "a"] hardOptions "" initialWorld) Hmode).
Defined.

(** C8 as stated fails in mode none: an empty array is shorter than
    [minLength = 2] and neither validator rejects it. *)
Lemma short_array_accepted_in_mode_none :
  let S := array 250 (optionsWith (Some stringSchema) (Some 2) None None) in
  length (@nil value) < 2
  /\ (internalValidate S (VArray []) (withMode none) "" initialWorld).1
     = noError
  /\ (internalValidateAsync S (VArray []) (withMode none) "" initialWorld).1
     = noError.
Proof. cbn. split; [lia|split; reflexivity]. Qed.

(** C9: in mode none, for an array whose items use custom serialization,
    the asynchronous validator's outcome does not depend on the length
    bounds at all (it is the outcome without bounds), while the synchronous
    validator returns the length error whenever the length violates the
    bounds. *)
Theorem mode_none_bounds_sync_only threshold options elems o path w :
  validation o = none ->
  needsDeepSerDesOf options = true ->
  internalValidateAsync (array threshold options) (VArray elems) o path w
  = internalValidateAsync (array threshold (withoutBounds options))
      (VArray elems) o path w
  /\ match lengthError options (length elems) path with
     | Some e =>
         (internalValidate (array threshold options) (VArray elems) o path w).1
         = Some e
         /\ isLengthViolation (Some e) = true
     | None =>
         internalValidate (array threshold options) (VArray elems) o path w
         = internalValidate (array threshold (withoutBounds options))
             (VArray elems) o path w
     end.
Proof.
  intros Hmode Hneeds. cbn [array internalValidate internalValidateAsync].
  split; [apply asyncValidateArray_none_ignores_bounds; exact Hmode|].
  destruct (lengthError options (length elems) path) as [e|] eqn:He.
  - split.
    + apply validateArray_lengthError; [rewrite Hneeds; reflexivity|exact He].
    + unfold lengthError in He.
      destruct (_ <? _); [injection He as <-; reflexivity|].
      destruct (maxLength options); [|discriminate].
      destruct (_ <? _); [injection He as <-; reflexivity|discriminate].
  - apply validateArray_withinBounds; exact He.
Qed.

Lemma mode_none_bounds_sync_only_witness :
  let options := optionsWith (Some dateSchema) (Some 2) None None in
  let elems := [VString "2020-01-01"] in
  validation (withMode none) = none
  /\ needsDeepSerDesOf options = true
  /\ (internalValidateAsync (array 250 options) (VArray elems) (withMode none)
        "" initialWorld).1 = noError
  /\ (internalValidate (array 250 options) (VArray elems) (withMode none)
        "" initialWorld).1 = Some (ArrayTooShort 2 1 "").
Proof.
  split; [reflexivity|]. split; [reflexivity|].
  pose proof (mode_none_bounds_sync_only 250
                (optionsWith (Some dateSchema) (Some 2) None None)
                [VString "2020-01-01"] (withMode none) "" initialWorld
                eq_refl eq_refl) as [Hasync Hsync].
  split.
  - rewrite Hasync. reflexivity.
  - exact (proj1 Hsync).
Defined.

(** ** Truncated checking *)

Lemma validateArray_rejects options needs elems path vo j x w :
  negb needs && isNone (validation vo) = false ->
  (forall i, reachedMaxEntries needs (maxEntriesToValidate options) i = false) ->
  forall items',
    items options = Some items' ->
    elems !! j = Some x ->
    itemRejected items' path vo false j x ->
    (validateArray (VArray elems) options needs path vo w).1 <> noError.
Proof.
  intros Hguard Hcap items' Hitems Hj Hrej.
  destruct (lengthError options (length elems) path) as [e|] eqn:He.
  { rewrite (validateArray_lengthError _ _ _ _ _ e); [discriminate|done|done]. }
  rewrite validateArray_withinBounds by exact He.
  unfold validateArray. cbn. rewrite Hguard, Hitems, bind_run.
  pose proof (validateItems_reject items' (maxEntriesToValidate options) needs
                path vo elems 0 None j x w Hcap Hj Hrej) as Hwalk.
  destruct (validateItems _ _ _ _ _ _ _ _ _) as [[r|r] w']; exact Hwalk.
Qed.

Lemma asyncValidateArray_rejects threshold options needs elems path vo j x w :
  negb needs && isNone (validation vo) = false ->
  (forall i, reachedMaxEntries needs (maxEntriesToValidate options) i = false) ->
  forall items',
    items options = Some items' ->
    max1 (floorDiv threshold (estimatedValidationTimeComplexity items')) <> NaN ->
    elems !! j = Some x ->
    itemRejected items' path vo
      (threshold <? estimatedValidationTimeComplexity items') j x ->
    (asyncValidateArray threshold (VArray elems) options needs path vo w).1
    <> noError.
Proof.
  intros Hguard Hcap items' Hitems HNaN Hj Hrej.
  unfold asyncValidateArray. rewrite Hguard, Hitems.
  match goal with
  | |- context [match ?f with Return _ => _ | Continue _ => _ end] =>
      destruct f as [r|slot] eqn:Hf
  end.
  - destruct (negb (isNone (validation vo))); [|discriminate].
    unfold recordError in Hf.
    repeat match type of Hf with
           | context [if ?b then _ else _] => destruct b
           | context [match ?m with Some _ => _ | None => _ end] => destruct m
           end; try discriminate; injection Hf as <-; discriminate.
  - apply (processChunks_reject items' _ needs path vo threshold elems
             (length elems) 0 slot j x w Hcap HNaN Hj Hrej); lia.
Qed.

(** C6, as amended: with items that do not use custom serialization and
    [maxEntriesToValidate = k], an array within the length bounds whose
    first [k] items are valid is accepted by both validators in every mode,
    even though an item at index [k] or beyond is invalid; in the modes
    hard and soft, the same array with [maxEntriesToValidate] unset is
    rejected by both validators. *)
Theorem max_entries_truncates_checking threshold items' minL maxL k elems o
    path w j x :
  usesCustomSerDes items' = false ->
  0 < estimatedValidationTimeComplexity items' ->
  withinBounds (optionsWith (Some items') minL maxL (Some k)) (length elems)
  = true ->
  (forall i y async, elems !! i = Some y -> i < k ->
                     itemAccepted items' path o async i y) ->
  elems !! j = Some x -> k <= j ->
  (forall async, itemRejected items' path o async j x) ->
  let capped := array threshold (optionsWith (Some items') minL maxL (Some k)) in
  let uncapped := array threshold (optionsWith (Some items') minL maxL None) in
  ((internalValidate capped (VArray elems) o path w).1 = noError
   /\ (internalValidateAsync capped (VArray elems) o path w).1 = noError)
  /\ (validation o <> none ->
      (internalValidate uncapped (VArray elems) o path w).1 <> noError
      /\ (internalValidateAsync uncapped (VArray elems) o path w).1 <> noError).
Proof.
  intros Hser Hcost Hb Hacc Hj Hkj Hrej. cbn zeta.
  cbn [array internalValidate internalValidateAsync].
  unfold needsDeepSerDesOf. cbn [items optionsWith]. rewrite Hser.
  assert (Hfirst : forall items'' i y async,
             Some items' = Some items'' -> elems !! i = Some y ->
             reachedMaxEntries false (Some k) i = false ->
             itemAccepted items'' path o async i y).
  { intros items'' i y async [= <-] Hy Hcap. apply Hacc; [exact Hy|].
    cbn in Hcap. apply Nat.leb_gt in Hcap. exact Hcap. }
  split; [split|intros Hmode; split].
  - apply validateArray_accepts; [exact Hb|].
    intros items'' i y. apply Hfirst.
  - apply asyncValidateArray_accepts; [exact Hb|].
    intros items'' i y. apply Hfirst.
  - apply (validateArray_rejects _ _ _ _ _ j x w) with (items' := items');
      [destruct (validation o); done|reflexivity|reflexivity|exact Hj|apply Hrej].
  - apply (asyncValidateArray_rejects _ _ _ _ _ _ j x w) with (items' := items');
      [destruct (validation o); done|reflexivity|reflexivity| |exact Hj|apply Hrej].
    rewrite max1_floorDiv_NaN. lia.
Qed.

Lemma first_item_accepted o path :
  forall i y async,
    [VString "a"; VNumber 5] !! i = Some y -> i < 1 ->
    itemAccepted stringSchema path o async i y.
Proof.
  intros i y async Hy Hi w. destruct i as [|i]; [|lia].
  injection Hy as <-. destruct async; reflexivity.
Qed.

Lemma second_item_rejected o path :
  forall async, itemRejected stringSchema path o async 1 (VNumber 5).
Proof. intros async w. destruct async; discriminate. Qed.

Lemma max_entries_truncates_checking_witness :
  let elems := [VString "a"; VNumber 5] in
  let capped := array 250 (optionsWith (Some stringSchema) None None (Some 1)) in
  let uncapped := array 250 (optionsWith (Some stringSchema) None None None) in
  usesCustomSerDes stringSchema = false
  /\ 0 < estimatedValidationTimeComplexity stringSchema
  /\ withinBounds (optionsWith (Some stringSchema) None None (Some 1))
       (length elems) = true
  /\ elems !! 1 = Some (VNumber 5)
  /\ ((internalValidate capped (VArray elems) hardOptions "" initialWorld).1
      = noError
      /\ (internalValidateAsync capped (VArray elems) hardOptions ""
            initialWorld).1 = noError)
  /\ ((internalValidate uncapped (VArray elems) hardOptions "" initialWorld).1
      <> noError
      /\ (internalValidateAsync uncapped (VArray elems) hardOptions ""
            initialWorld).1 <> noError).
Proof.
  assert (Hcost : 0 < estimatedValidationTimeComplexity stringSchema)
    by (cbn; lia).
  assert (Hk : 1 <= 1) by lia.
  assert (Hmode : validation hardOptions <> none) by discriminate.
  pose proof (max_entries_truncates_checking 250 stringSchema None None 1
                [VString "a"; VNumber 5] hardOptions "" initialWorld 1
                (VNumber 5) eq_refl Hcost eq_refl
                (first_item_accepted hardOptions "") eq_refl Hk
                (second_item_rejected hardOptions "")) as [Hcapped Huncapped].
  split; [reflexivity|]. split; [exact Hcost|]. split; [reflexivity|].
  split; [reflexivity|]. split; [exact Hcapped|exact (Huncapped Hmode)].
Defined.

(** C6 as stated fails twice over on [["a", 5]], whose first item is valid
    and whose second is not.  In mode none, with [maxEntriesToValidate]
    unset, neither validator rejects the array.  And with
    [maxEntriesToValidate = 1] but [minLength = 3], both validators reject
    it in mode hard although its first item is valid. *)
Lemma truncated_checking_as_stated_fails :
  let elems := [VString "a"; VNumber 5] in
  let uncapped := array 250 (optionsWith (Some stringSchema) None None None) in
  let short := array 250 (optionsWith (Some stringSchema) (Some 3) None (Some 1)) in
  (internalValidate stringSchema (VString "a") hardOptions "[0]"
     initialWorld).1 = noError
  /\ (internalValidate stringSchema (VNumber 5) hardOptions "[1]"
        initialWorld).1 <> noError
  /\ ((internalValidate uncapped (VArray elems) (withMode none) ""
         initialWorld).1 = noError
      /\ (internalValidateAsync uncapped (VArray elems) (withMode none) ""
            initialWorld).1 = noError)
  /\ ((internalValidate short (VArray elems) hardOptions "" initialWorld).1
      = Some (ArrayTooShort 3 2 "")
      /\ (internalValidateAsync short (VArray elems) hardOptions ""
            initialWorld).1 = Some (ArrayTooShort 3 2 "")).
Proof. cbn. repeat split; discriminate. Qed.

(** ** The walks after a first error *)

(** The synchronous walk stops at the first rejected item when stopping on
    the first error applies: the items behind it play no part, in the
    outcome or in what happens to the process. *)
Lemma validateItems_stops_at_first_error items cap needs path vo rest index j
    x w :
  isHard (validation vo) || negb needs = true ->
  rest !! j = Some x ->
  itemRejected items path vo false (index + j) x ->
  validateItems items cap needs path vo rest index None w
  = validateItems items cap needs path vo (take (S j) rest) index None w.
Proof.
  intros Hstop. revert index j w.
  induction rest as [|y rest IH]; intros index j w Hj Hrej; [discriminate|].
  cbn [take validateItems].
  destruct (reachedMaxEntries needs cap index); [reflexivity|].
  rewrite !bind_run, validateItem_run.
  destruct j as [|j].
  - injection Hj as ->. rewrite Nat.add_0_r in Hrej.
    specialize (Hrej (emit (ItemValidated false (appendPathIndex path index))
                        w).2).
    cbn beta iota in Hrej.
    destruct (internalValidate items x vo _ _) as [[e|] w']; [|done].
    cbn [fst snd recordResult]. rewrite Hstop. reflexivity.
  - destruct (internalValidate items y vo _ _) as [[e|] w'];
      cbn [fst snd recordResult].
    + rewrite Hstop. reflexivity.
    + apply (IH (S index) j); [exact Hj|].
      replace (S index + j) with (index + S j) by lia. exact Hrej.
Qed.

(** At threshold 1, on the array [[5, "b"]] of strings in mode hard: the
    synchronous validator validates item 0 only, the asynchronous validator
    goes on to validate item 1 after the error of item 0. *)
Example async_walk_goes_on_after_first_error :
  let S := array 1 (arrayOf stringSchema) in
  let V := VArray [VNumber 5; VString "b"] in
  let firstError := Some (ChildError "Expected string, found number @ [0]") in
  internalValidate S V hardOptions "" initialWorld
  = (firstError,
     {| alreadyLogUpgradedWarnings := ∅;
        trace := [ItemValidated false "[0]"] |})
  /\ internalValidateAsync S V hardOptions "" initialWorld
     = (firstError,
        {| alreadyLogUpgradedWarnings := ∅;
           trace := [ShouldYieldAsked false; ItemValidated false "[0]";
                     ShouldYieldAsked false; ItemValidated false "[1]"] |}).
Proof. split; vm_compute; reflexivity. Qed.

(** ** What every validation preserves *)

Section Preserved.

Variables (threshold : nat) (loggerHasWarn : bool).
Variable P : world -> Prop.

Hypothesis P_event : forall w e,
  (forall n m, e <> Warned n m) -> P w ->
  P {| alreadyLogUpgradedWarnings := alreadyLogUpgradedWarnings w;
       trace := trace w ++ [e] |}.

Hypothesis P_warnOnce : forall uniqueName deadline v w,
  P w -> P (warnOnce loggerHasWarn uniqueName deadline v w).2.

Local Abbreviation preserves := (preserves P).

Lemma preserves_ret {A} (a : A) : preserves (ret a).
Proof. intros w Hw. exact Hw. Qed.

Lemma preserves_bind {A B} (m : M A) (k : A -> M B) :
  preserves m -> (forall a, preserves (k a)) -> preserves (bind m k).
Proof. intros Hm Hk w Hw. rewrite bind_run. apply Hk, Hm, Hw. Qed.

Lemma preserves_emit e : (forall n m, e <> Warned n m) -> preserves (emit e).
Proof. intros He w Hw. apply P_event; assumption. Qed.

Lemma preserves_validateItem async items x vo p :
  preserves (internalValidate items x vo p) ->
  preserves (internalValidateAsync items x vo p) ->
  preserves (validateItem async items x vo p).
Proof.
  intros Hs Ha. apply preserves_bind; [apply preserves_emit; discriminate|].
  intros _. destruct async; assumption.
Qed.

Section Items.

Variables (items : Schema) (cap : option nat) (needs : bool) (path : string)
          (vo : InternalValidationOptions).

Hypothesis items_sync : forall x p, preserves (internalValidate items x vo p).
Hypothesis items_async : forall x p,
  preserves (internalValidateAsync items x vo p).

Lemma preserves_validateItems rest index slot :
  preserves (validateItems items cap needs path vo rest index slot).
Proof using P_event items_sync items_async.
  revert index slot. induction rest as [|x rest IH]; intros index slot;
    cbn [validateItems].
  - apply preserves_ret.
  - destruct (reachedMaxEntries needs cap index); [apply preserves_ret|].
    apply preserves_bind; [apply preserves_validateItem; auto|].
    intros result. destruct (recordResult _ _ _); [apply preserves_ret|apply IH].
Qed.

Lemma preserves_processChunkItems value fuel c index slot :
  preserves (processChunkItems items cap needs path vo threshold value fuel c
               index slot).
Proof using P_event items_sync items_async.
  revert index slot. induction fuel as [|fuel IH]; intros index slot;
    cbn [processChunkItems].
  - apply preserves_ret.
  - destruct (_ && _); [|apply preserves_ret].
    destruct (reachedMaxEntries needs cap index); [apply preserves_ret|].
    apply preserves_bind; [apply preserves_validateItem; auto|].
    intros result. destruct (recordResult _ _ _); [apply preserves_ret|apply IH].
Qed.

Lemma preserves_processChunks value fuel c slot :
  preserves (processChunks items cap needs path vo threshold value fuel c slot).
Proof using P_event items_sync items_async.
  revert c slot. induction fuel as [|fuel IH]; intros c slot;
    cbn [processChunks].
  - apply preserves_ret.
  - destruct (c <? length value); [|apply preserves_ret].
    apply preserves_bind.
    + unfold processChunk. apply preserves_bind.
      * intros w Hw. apply P_event; [discriminate|exact Hw].
      * intros b. apply preserves_bind.
        -- destruct b; [apply preserves_emit; discriminate|apply preserves_ret].
        -- intros _. apply preserves_processChunkItems.
    + intros [res slot'].
      destruct res; try apply preserves_ret;
        destruct (nextChunkStart _ _); try apply preserves_ret; apply IH.
Qed.

End Items.

Lemma preserves_validateArray v options needs path vo :
  (forall items', items options = Some items' ->
     (forall x p, preserves (internalValidate items' x vo p))
     /\ (forall x p, preserves (internalValidateAsync items' x vo p))) ->
  preserves (validateArray v options needs path vo)
  /\ preserves (asyncValidateArray threshold v options needs path vo).
Proof using P_event.
  intros Hitems. unfold validateArray, asyncValidateArray.
  destruct v; try (split; apply preserves_ret).
  destruct (negb needs && isNone (validation vo));
    [split; apply preserves_ret|].
  split.
  - destruct (recordError _ _ _ _); [apply preserves_ret|].
    match goal with
    | |- context [match ?f with Return _ => _ | Continue _ => _ end] =>
        destruct f
    end; [apply preserves_ret|].
    destruct (items options) as [items'|]; [|apply preserves_ret].
    destruct (Hitems items' eq_refl) as [Hs Ha].
    apply preserves_bind; [apply preserves_validateItems; assumption|].
    intros [r|r]; apply preserves_ret.
  - match goal with
    | |- context [match ?f with Return _ => _ | Continue _ => _ end] =>
        destruct f
    end; [apply preserves_ret|].
    destruct (items options) as [items'|]; [|apply preserves_ret].
    destruct (Hitems items' eq_refl) as [Hs Ha].
    apply preserves_processChunks; assumption.
Qed.

Lemma preserves_upgradedValidate uniqueName deadline vNew vOld v o path :
  preserves (vNew v o path) -> preserves (vOld v o path) ->
  preserves (upgradedValidate loggerHasWarn uniqueName deadline vNew vOld
               v o path).
Proof using P_warnOnce.
  intros Hn Ho. unfold upgradedValidate.
  apply preserves_bind; [exact Hn|]. intros [e|]; [|apply preserves_ret].
  apply preserves_bind; [exact Ho|]. intros [e'|]; [apply preserves_ret|].
  apply preserves_bind; [|intros _; apply preserves_ret].
  intros w Hw. apply P_warnOnce, Hw.
Qed.

Lemma built_preserves S :
  built threshold loggerHasWarn S ->
  forall v o path,
    preserves (internalValidate S v o path)
    /\ preserves (internalValidateAsync S v o path).
Proof using P_event P_warnOnce.
  induction 1 as [type cost serDes check
                 | options Hitems IH
                 | uniqueName old new deadline Hold IHold Hnew IHnew];
    intros v o path.
  - split; apply preserves_ret.
  - cbn [array internalValidate internalValidateAsync].
    apply preserves_validateArray. intros items' Hi.
    split; intros x p; apply (IH items' Hi x o p).
  - cbn [upgraded internalValidate internalValidateAsync].
    split; apply preserves_upgradedValidate;
      try apply IHnew; try apply IHold;
      unfold validatorFor;
      match goal with |- context [if ?b then _ else _] => destruct b end;
      try apply IHnew; apply IHold.
Qed.


End Preserved.

(** ** One warning per name *)









Lemma userIdSchema_built : built 250 true userIdSchema.
Proof. apply built_upgraded; apply built_leaf. Qed.


(** ** The asynchronous walk, chunk by chunk *)

Lemma chunk_count n k j : 1 <= k -> j < (n + k - 1) / k <-> j * k < n.
Proof.
  intros Hk. split; intros H.
  - destruct (Nat.lt_ge_cases (j * k) n) as [|Hge]; [assumption|exfalso].
    assert ((n + k - 1) / k < j + 1); [|lia].
    apply Nat.Div0.div_lt_upper_bound; lia.
  - assert (j + 1 <= (n + k - 1) / k); [|lia].
    apply Nat.div_le_lower_bound; lia.
Qed.



Section Refinement.

Variables (items : Schema) (cap : option nat) (needs : bool) (path : string)
          (vo : InternalValidationOptions) (threshold : nat)
          (value : list value).

Let cs : jsnumber :=
  max1 (floorDiv threshold (estimatedValidationTimeComplexity items)).

Lemma chunk_test index c :
  (index <? length value) && belowChunkEnd index c cs
  = (index <? chunkEnd (length value) c cs).
Proof.
  unfold belowChunkEnd, chunkEnd. destruct cs as [k| |].
  - destruct (Nat.ltb_spec index (length value));
      destruct (Nat.ltb_spec index (c + k));
      destruct (Nat.ltb_spec index (Nat.min (length value) (c + k)));
      try reflexivity; lia.
  - apply andb_true_r.
  - rewrite andb_false_r. reflexivity.
Qed.

Lemma processChunkItems_as_walk fuel c index slot w :
  chunkEnd (length value) c cs - index <= fuel ->
  processChunkItems items cap needs path vo threshold value fuel c index slot w
  = walkChunk items cap needs path vo threshold value
      (seq index (chunkEnd (length value) c cs - index)) slot w.
Proof.
  revert index slot w.
  induction fuel as [|fuel IH]; intros index slot w Hfuel;
    cbn [processChunkItems].
  - replace (chunkEnd (length value) c cs - index) with 0 by lia. reflexivity.
  - fold cs. rewrite chunk_test.
    destruct (Nat.ltb_spec index (chunkEnd (length value) c cs)) as [Hlt|Hge].
    + replace (chunkEnd (length value) c cs - index)
        with (S (chunkEnd (length value) c cs - S index)) by lia.
      cbn [seq walkChunk].
      destruct (reachedMaxEntries needs cap index); [reflexivity|].
      rewrite !bind_run.
      destruct (recordResult _ _ _); [reflexivity|]. apply IH. lia.
    + replace (chunkEnd (length value) c cs - index) with 0 by lia.
      reflexivity.
Qed.

Lemma processChunk_as_walk c slot w :
  c <= chunkEnd (length value) c cs \/ chunkEnd (length value) c cs = 0 ->
  processChunk items cap needs path vo threshold value c slot w
  = (let* b := askShouldYield vo in
     let* _ := (if b then yield else ret tt) in
     walkChunk items cap needs path vo threshold value
       (seq c (chunkEnd (length value) c cs - c)) slot) w.
Proof.
  intros Hc. unfold processChunk. rewrite !bind_run.
  apply processChunkItems_as_walk.
  unfold chunkEnd in *. destruct cs; lia.
Qed.

Lemma walkChunks_cons chunk rest slot w :
  walkChunks items cap needs path vo threshold value (chunk :: rest) slot w
  = (let* (chunkRes, slot') :=
       (let* b := askShouldYield vo in
        let* _ := (if b then yield else ret tt) in
        walkChunk items cap needs path vo threshold value chunk slot) in
     match chunkRes with
     | ChunkFalse => ret slot'
     | _ => walkChunks items cap needs path vo threshold value rest slot'
     end) w.
Proof. cbn [walkChunks]. rewrite !bind_run. reflexivity. Qed.

Ltac destruct_chunk_run :=
  match goal with
  | |- context [bind (askShouldYield ?vo) ?f ?w] =>
      let res := fresh "res" in
      let slot := fresh "slot" in
      let w' := fresh "w" in
      destruct (bind (askShouldYield vo) f w) as [[res slot] w']
  end.

Lemma processChunks_finite_as_walk k :
  cs = Finite k ->
  forall m j fuel slot w,
    m = (length value + k - 1) / k - j -> m <= fuel ->
    processChunks items cap needs path vo threshold value fuel (j * k) slot w
    = walkChunks items cap needs path vo threshold value
        (map (chunkAt (length value) k) (seq j m)) slot w.
Proof.
  intros Hcs. pose proof (max1_Finite _ _ Hcs) as Hk.
  induction m as [|m IH]; intros j fuel slot w Hm Hfuel.
  - assert (~ j * k < length value)
      by (rewrite <- chunk_count by exact Hk; lia).
    destruct fuel; cbn [processChunks seq map walkChunks]; [reflexivity|].
    destruct (Nat.ltb_spec (j * k) (length value)); [lia|reflexivity].
  - assert (Hj : j * k < length value)
      by (rewrite <- chunk_count by exact Hk; lia).
    destruct fuel as [|fuel]; [lia|].
    cbn [processChunks seq map]. rewrite walkChunks_cons.
    destruct (Nat.ltb_spec (j * k) (length value)); [|lia].
    rewrite (bind_run (processChunk _ _ _ _ _ _ _ _ _)).
    rewrite processChunk_as_walk by (fold cs; rewrite Hcs; cbn; lia).
    fold cs. rewrite Hcs. unfold chunkAt.
    replace (chunkEnd (length value) (j * k) (Finite k) - j * k)
      with (Nat.min k (length value - j * k)) by (cbn; lia).
    rewrite (bind_run (bind _ _)).
    destruct_chunk_run. cbn [fst snd nextChunkStart].
    replace (j * k + k) with (S j * k) by lia.
    destruct res; [reflexivity| |]; apply IH; lia.
Qed.

Lemma processChunks_as_walk fuel slot w :
  length value <= fuel ->
  processChunks items cap needs path vo threshold value fuel 0 slot w
  = walkChunks items cap needs path vo threshold value
      (chunks (length value) cs) slot w.
Proof.
  intros Hfuel. destruct cs as [k| |] eqn:Hcs; unfold chunks.
  - unfold chunksOfSize. pose proof (max1_Finite _ _ Hcs) as Hk.
    assert (Hcount : ~ length value < (length value + k - 1) / k)
      by (rewrite chunk_count by exact Hk; nia).
    apply (processChunks_finite_as_walk k Hcs _ 0); lia.
  - destruct (length value) as [|n] eqn:Hn.
    { destruct fuel; cbn [processChunks]; rewrite ?Hn; reflexivity. }
    destruct fuel as [|fuel]; [lia|].
    cbn [processChunks]. rewrite walkChunks_cons, Hn. cbn [Nat.ltb Nat.leb].
    rewrite (bind_run (processChunk _ _ _ _ _ _ _ _ _)).
    rewrite processChunk_as_walk by (fold cs; rewrite Hcs; cbn; lia).
    fold cs. rewrite Hcs, Hn. cbn [chunkEnd nextChunkStart].
    rewrite Nat.sub_0_r, (bind_run (bind _ _)).
    destruct_chunk_run. destruct res; reflexivity.
  - destruct (length value) as [|n] eqn:Hn.
    { destruct fuel; cbn [processChunks]; rewrite ?Hn; reflexivity. }
    destruct fuel as [|fuel]; [lia|].
    cbn [processChunks]. rewrite walkChunks_cons, Hn. cbn [Nat.ltb Nat.leb].
    rewrite (bind_run (processChunk _ _ _ _ _ _ _ _ _)).
    rewrite processChunk_as_walk by (fold cs; rewrite Hcs; cbn; lia).
    fold cs. rewrite Hcs, Hn. cbn [chunkEnd nextChunkStart Nat.sub seq].
    rewrite (bind_run (bind _ _)).
    destruct_chunk_run. destruct res; reflexivity.
Qed.

(** The fuel [asyncValidateArray] gives the chunk loop is enough: more fuel
    changes nothing. *)
Lemma processChunks_fuel_enough fuel slot w :
  length value <= fuel ->
  processChunks items cap needs path vo threshold value fuel 0 slot w
  = processChunks items cap needs path vo threshold value (length value) 0
      slot w.
Proof.
  intros Hfuel. rewrite !processChunks_as_walk by lia. reflexivity.
Qed.

End Refinement.

Lemma asyncValidateArray_as_walk threshold options items' needs elems vo path w :
  items options = Some items' ->
  lengthError options (length elems) path = None ->
  asyncValidateArray threshold (VArray elems) options needs path vo w
  = (if negb needs && isNone (validation vo) then (noError, w)
     else walkChunks items' (maxEntriesToValidate options) needs path vo
            threshold elems
            (chunks (length elems)
               (max1 (floorDiv threshold
                        (estimatedValidationTimeComplexity items'))))
            noError w).
Proof.
  intros Hitems Hb.
  rewrite asyncValidateArray_withinBounds by exact Hb.
  unfold asyncValidateArray.
  cbn [withoutBounds items minLength maxLength maxEntriesToValidate].
  destruct (negb needs && isNone (validation vo)); [reflexivity|].
  rewrite Hitems.
  destruct (negb (isNone (validation vo))); cbn;
    apply processChunks_as_walk; lia.
Qed.

(** ** The chunked walk is the one the specification words *)



Section WalkAsSpecified.

Variables (items : Schema) (cap : option nat) (needs : bool) (path : string)
          (vo : InternalValidationOptions) (threshold : nat)
          (value : list value).

Let async : bool := threshold <? estimatedValidationTimeComplexity items.






End WalkAsSpecified.



(** C1, at a failing input that works for every threshold: in mode hard, on
    [[5, []]] against an array of arrays of strings, item 0 is not an array.
    The synchronous validator returns that error having validated item 0
    only; the asynchronous validator returns the same error but validates
    item 1 as well, in the next chunk. *)
Theorem async_walk_validates_after_first_error threshold :
  let V := VArray [VNumber 5; VArray []] in
  let firstError := Some (ExpectedArray "number" "[0]") in
  internalValidate (nestedStrings threshold) V hardOptions "" initialWorld
  = (firstError,
     {| alreadyLogUpgradedWarnings := ∅;
        trace := [ItemValidated false "[0]"] |})
  /\ internalValidateAsync (nestedStrings threshold) V hardOptions ""
       initialWorld
     = (firstError,
        {| alreadyLogUpgradedWarnings := ∅;
           trace := [ShouldYieldAsked false; ItemValidated true "[0]";
                     ShouldYieldAsked false; ItemValidated true "[1]"] |}).
Proof.
  cbn zeta. split; [reflexivity|].
  unfold nestedStrings.
  set (inner := array threshold
                  (optionsWith (Some stringSchema) None None
                     (Some (S threshold)))).
  assert (Hcost : estimatedValidationTimeComplexity inner = S threshold)
    by (cbn; lia).
  cbn [array internalValidateAsync].
  rewrite (asyncValidateArray_as_walk _ _ inner) by reflexivity.
  cbn [negb andb hardOptions validation isNone needsDeepSerDesOf arrayOf items
       usesCustomSerDes inner array optionsWith stringSchema leaf
       maxEntriesToValidate].
  fold stringSchema. fold inner. rewrite Hcost.
  replace (max1 (floorDiv threshold (S threshold))) with (Finite 1)
    by (unfold floorDiv; rewrite Nat.div_small by lia; reflexivity).
  replace (chunks (length [VNumber 5; VArray []]) (Finite 1))
    with [[0]; [1]] by reflexivity.
  assert (Hasync : (threshold <? S threshold) = true)
    by (apply Nat.ltb_lt; lia).
  cbn [walkChunks walkChunk reachedMaxEntries negb andb nth].
  rewrite Hcost, Hasync. reflexivity.
Qed.

(** ** What the synchronous validator accepts, the asynchronous one accepts *)

Lemma reachedMaxEntries_le needs cap i j :
  i <= j -> reachedMaxEntries needs cap j = false ->
  reachedMaxEntries needs cap i = false.
Proof.
  unfold reachedMaxEntries. destruct needs; cbn; [reflexivity|].
  destruct cap as [k|]; [|reflexivity].
  intros Hij Hj. apply Nat.leb_gt in Hj. apply Nat.leb_gt. lia.
Qed.

Section SyncResults.

Variables (items : Schema) (cap : option nat) (needs : bool) (path : string)
          (vo : InternalValidationOptions).

(** The outcome of the item schema's synchronous validator does not depend
    on the state of the process. *)
Hypothesis items_pure : forall x p w w',
  (internalValidate items x vo p w).1 = (internalValidate items x vo p w').1.

Lemma validateItems_result_pure rest index slot w w' :
  (validateItems items cap needs path vo rest index slot w).1
  = (validateItems items cap needs path vo rest index slot w').1.
Proof using items_pure.
  revert index slot w w'.
  induction rest as [|x rest IH]; intros index slot w w'; cbn [validateItems].
  - reflexivity.
  - destruct (reachedMaxEntries needs cap index); [reflexivity|].
    rewrite !bind_run, !validateItem_run.
    set (e := ItemValidated false (appendPathIndex path index)).
    rewrite (items_pure x _ (emit e w).2 (emit e w').2).
    destruct (recordResult _ _ _); [reflexivity|apply IH].
Qed.

Lemma validateItems_accepted_items rest index w :
  flowResult (validateItems items cap needs path vo rest index None w).1 = None ->
  forall i x, rest !! i = Some x ->
              reachedMaxEntries needs cap (index + i) = false ->
              itemAccepted items path vo false (index + i) x.
Proof using items_pure.
  revert index w.
  induction rest as [|y rest IH]; intros index w Hres i x Hx Hcap;
    [discriminate|].
  cbn [validateItems] in Hres.
  rewrite (reachedMaxEntries_le needs cap index (index + i)) in Hres
    by (lia || exact Hcap).
  rewrite bind_run, validateItem_run in Hres.
  destruct (internalValidate items y vo (appendPathIndex path index)
              (emit (ItemValidated false (appendPathIndex path index)) w).2)
    as [[e|] w1] eqn:Hy; cbn [fst snd recordResult] in Hres.
  - destruct (isHard (validation vo) || negb needs); cbn in Hres;
      [discriminate|].
    rewrite validateItems_slot_Some in Hres. discriminate.
  - destruct i as [|i].
    + injection Hx as <-. rewrite Nat.add_0_r. intros w'.
      cbn beta iota.
      rewrite (items_pure y _ w'
                 (emit (ItemValidated false (appendPathIndex path index)) w).2),
        Hy.
      reflexivity.
    + replace (index + S i) with (S index + i) in * by lia.
      apply (IH (S index) w1 Hres i x Hx Hcap).
Qed.

End SyncResults.

Lemma validateArray_result_pure options needs v path vo w w' :
  (forall items', items options = Some items' ->
     forall x p w1 w2,
       (internalValidate items' x vo p w1).1
       = (internalValidate items' x vo p w2).1) ->
  (validateArray v options needs path vo w).1
  = (validateArray v options needs path vo w').1.
Proof.
  intros Hpure. unfold validateArray. destruct v; try reflexivity.
  destruct (negb needs && isNone (validation vo)); [reflexivity|].
  destruct (recordError _ _ _ _); [reflexivity|].
  match goal with
  | |- context [match ?f with Return _ => _ | Continue _ => _ end] =>
      destruct f
  end; [reflexivity|].
  destruct (items options) as [items'|]; [|reflexivity].
  rewrite !bind_run.
  match goal with
  | |- context [validateItems items' ?c ?n ?p vo elems 0 ?slot w] =>
      rewrite (validateItems_result_pure items' c n p vo
                 (Hpure items' eq_refl) elems 0 slot w w')
  end.
  destruct (validateItems _ _ _ _ _ _ _ _ w').1; reflexivity.
Qed.

Lemma validateArray_accepted_inv options needs elems path vo w :
  (forall items', items options = Some items' ->
     forall x p w1 w2,
       (internalValidate items' x vo p w1).1
       = (internalValidate items' x vo p w2).1) ->
  (validateArray (VArray elems) options needs path vo w).1 = noError ->
  negb needs && isNone (validation vo) = true
  \/ (withinBounds options (length elems) = true
      /\ forall items' i x,
           items options = Some items' -> elems !! i = Some x ->
           reachedMaxEntries needs (maxEntriesToValidate options) i = false ->
           itemAccepted items' path vo false i x).
Proof.
  intros Hpure Hres.
  destruct (negb needs && isNone (validation vo)) eqn:Hguard; [left; reflexivity|].
  right.
  destruct (lengthError options (length elems) path) as [e|] eqn:He.
  { rewrite (validateArray_lengthError _ _ _ _ _ e) in Hres by assumption.
    discriminate. }
  split; [apply (lengthError_withinBounds _ _ path); exact He|].
  intros items' i x Hitems Hx Hcap.
  rewrite validateArray_withinBounds in Hres by exact He.
  unfold validateArray in Hres. cbn in Hres.
  rewrite Hguard, Hitems, bind_run in Hres.
  apply (validateItems_accepted_items items' (maxEntriesToValidate options)
           needs path vo (Hpure items' Hitems) elems 0 w);
    [|exact Hx|exact Hcap].
  destruct (validateItems _ _ _ _ _ _ _ _ _).1; exact Hres.
Qed.

(** For schemas built from the three kinds, the synchronous outcome is the
    same from every state of the process, and a value the synchronous
    validator accepts is accepted by the asynchronous validator. *)
Lemma built_sync_accept_async_accept threshold loggerHasWarn S :
  built threshold loggerHasWarn S ->
  forall V o path,
    (forall w w',
        (internalValidate S V o path w).1 = (internalValidate S V o path w').1)
    /\ (forall w w',
          (internalValidate S V o path w).1 = noError ->
          (internalValidateAsync S V o path w').1 = noError).
Proof.
  induction 1 as [type cost serDes check
                 | options Hitems IH
                 | uniqueName old new deadline Hold IHold Hnew IHnew];
    intros V o path.
  - split; intros w w'; cbn; [reflexivity|tauto].
  - assert (Hpure : forall items', items options = Some items' ->
              forall x p w1 w2,
                (internalValidate items' x o p w1).1
                = (internalValidate items' x o p w2).1)
      by (intros items' Hi x p w1 w2; apply (IH items' Hi x o p)).
    cbn [array internalValidate internalValidateAsync].
    split; intros w w'; [apply validateArray_result_pure; exact Hpure|].
    destruct V; try (cbn; discriminate).
    intros Hacc.
    destruct (validateArray_accepted_inv _ _ _ _ _ _ Hpure Hacc)
      as [Hguard|[Hb Hall]].
    + unfold asyncValidateArray. rewrite Hguard. reflexivity.
    + apply asyncValidateArray_accepts; [exact Hb|].
      intros items' i x Hi Hx Hcap w1.
      pose proof (Hall items' i x Hi Hx Hcap) as Hs. unfold itemAccepted in Hs.
      destruct (threshold <? _).
      * apply (proj2 (IH items' Hi x o _) w1 w1), Hs.
      * apply Hs.
  - cbn [upgraded internalValidate internalValidateAsync].
    split; intros w w'.
    + rewrite !upgradedValidate_run.
      rewrite (proj1 (IHnew V o path) w w').
      destruct (internalValidate new V o path w').1; [|reflexivity].
      cbn zeta.
      rewrite (proj1 (IHold V o path) (internalValidate new V o path w).2
                 (internalValidate new V o path w').2).
      destruct (internalValidate old V o path _).1; reflexivity.
    + rewrite !upgradedValidate_run. intros Hacc.
      assert (Hnew' : (internalValidate new V o path w).1 = None ->
                forall w1, (validatorFor threshold new V o path w1).1 = None).
      { intros Hn w1. unfold validatorFor. destruct (threshold <? _).
        - apply (proj2 (IHnew V o path) w w1 Hn).
        - rewrite (proj1 (IHnew V o path) w1 w). exact Hn. }
      assert (Hold' : forall w0, (internalValidate old V o path w0).1 = None ->
                forall w1, (validatorFor threshold old V o path w1).1 = None).
      { intros w0 Ho w1. unfold validatorFor. destruct (threshold <? _).
        - apply (proj2 (IHold V o path) w0 w1 Ho).
        - rewrite (proj1 (IHold V o path) w1 w0). exact Ho. }
      destruct (validatorFor threshold new V o path w').1 eqn:Hvn;
        [|reflexivity].
      cbn zeta.
      destruct (internalValidate new V o path w).1 eqn:Hn.
      * cbn zeta in Hacc.
        destruct (internalValidate old V o path _).1 eqn:Ho; [discriminate|].
        rewrite (Hold' _ Ho). reflexivity.
      * rewrite (Hnew' eq_refl w') in Hvn. discriminate.
Qed.

(** * Further properties *)

(** ** The reported error is the first one in source order *)

Lemma firstError_nil r needs cap slot index :
  firstError r needs cap slot [] index = slot.
Proof. destruct slot; reflexivity. Qed.

Lemma firstError_drop_ge r needs cap slot (value : list value) index :
  length value <= index ->
  firstError r needs cap slot (drop index value) index = slot.
Proof. intros H. rewrite drop_ge by exact H. apply firstError_nil. Qed.

Lemma validateItems_firstError items cap needs path vo r rest index slot w :
  (forall i x w', (internalValidate items x vo (appendPathIndex path i) w').1
                  = r i x) ->
  flowResult (validateItems items cap needs path vo rest index slot w).1
  = firstError r needs cap slot rest index.
Proof.
  intros Hr. destruct slot as [e|].
  { rewrite validateItems_slot_Some. reflexivity. }
  revert index w. induction rest as [|x rest IH]; intros index w;
    cbn [validateItems firstError firstItemError].
  - reflexivity.
  - destruct (reachedMaxEntries needs cap index); [reflexivity|].
    rewrite bind_run, validateItem_run, Hr.
    destruct (r index x) as [e|]; cbn [recordResult].
    + destruct (isHard (validation vo) || negb needs); cbn; [reflexivity|].
      rewrite validateItems_slot_Some. reflexivity.
    + apply IH.
Qed.

Section AsyncFirstError.

Variables (r : nat -> value -> InternalValidationResult)
          (items : Schema) (cap : option nat) (needs : bool) (path : string)
          (vo : InternalValidationOptions) (threshold : nat)
          (value : list value).

Hypothesis Hr : forall i x w,
  (validatorFor threshold items x vo (appendPathIndex path i) w).1 = r i x.

Lemma walkChunk_firstError len index slot w :
  index + len <= length value ->
  firstError r needs cap slot (drop index value) index
  = match (walkChunk items cap needs path vo threshold value
             (seq index len) slot w).1 with
    | (ChunkFalse, slot') => slot'
    | (_, slot') =>
        firstError r needs cap slot' (drop (index + len) value) (index + len)
    end.
Proof using Hr.
  revert index slot w. induction len as [|len IH]; intros index slot w Hlen.
  - rewrite Nat.add_0_r. reflexivity.
  - cbn [seq walkChunk].
    destruct (lookup_lt_is_Some_2 value index) as [x Hx]; [lia|].
    rewrite (drop_S _ _ _ Hx), (nth_lookup_Some _ _ VUndefined _ Hx).
    replace (index + S len) with (S index + len) by lia.
    destruct (reachedMaxEntries needs cap index) eqn:Hcap.
    { destruct slot; cbn [firstError firstItemError ret fst];
        rewrite ?Hcap; reflexivity. }
    rewrite bind_run, validateItem_run.
    pose proof (Hr index x
                  (emit (ItemValidated
                           (threshold <? estimatedValidationTimeComplexity items)
                           (appendPathIndex path index)) w).2) as Hx'.
    unfold validatorFor in Hx'. rewrite Hx'.
    destruct slot as [e|].
    + cbn [recordResult]. rewrite <- IH by lia. reflexivity.
    + cbn [firstError firstItemError]. rewrite Hcap.
      destruct (r index x) as [e|]; cbn [recordResult].
      * destruct (isHard (validation vo) || negb needs); cbn [ret fst].
        -- reflexivity.
        -- rewrite <- IH by lia. reflexivity.
      * rewrite <- IH by lia. reflexivity.
Qed.

Lemma processChunks_firstError fuel c slot w :
  length value - c <= fuel ->
  (processChunks items cap needs path vo threshold value fuel c slot w).1
  = match max1 (floorDiv threshold (estimatedValidationTimeComplexity items))
    with
    | NaN => slot
    | _ => firstError r needs cap slot (drop c value) c
    end.
Proof using Hr.
  revert c slot w. induction fuel as [|fuel IH]; intros c slot w Hfuel.
  - cbn [processChunks ret fst]. rewrite firstError_drop_ge by lia.
    destruct (max1 _); reflexivity.
  - cbn [processChunks].
    destruct (Nat.ltb_spec c (length value)) as [Hlt|Hge].
    2:{ cbn [ret fst]. rewrite firstError_drop_ge by lia.
        destruct (max1 _); reflexivity. }
    rewrite (bind_run (processChunk _ _ _ _ _ _ _ _ _)).
    destruct (max1 (floorDiv threshold (estimatedValidationTimeComplexity items)))
      as [k| |] eqn:Hcs.
    + pose proof (max1_Finite _ _ Hcs) as Hk.
      rewrite processChunk_as_walk by (rewrite Hcs; cbn; lia).
      rewrite Hcs. rewrite !bind_run. cbn [chunkEnd nextChunkStart].
      match goal with
      | |- context [walkChunk _ _ _ _ _ _ _ (seq c ?len) slot ?w0] =>
          pose proof (walkChunk_firstError len c slot w0 ltac:(lia)) as Hwalk;
          destruct (walkChunk items cap needs path vo threshold value
                      (seq c len) slot w0) as [[res slot'] w']
      end.
      cbn [fst snd] in *. rewrite Hwalk.
      destruct res; [reflexivity| |];
        rewrite IH by lia;
        (destruct (Nat.le_gt_cases (c + k) (length value));
         [replace (c + (Nat.min (length value) (c + k) - c)) with (c + k)
            by lia; reflexivity
         |rewrite !firstError_drop_ge by lia; reflexivity]).
    + rewrite processChunk_as_walk by (rewrite Hcs; cbn; lia).
      rewrite Hcs. rewrite !bind_run. cbn [chunkEnd nextChunkStart].
      match goal with
      | |- context [walkChunk _ _ _ _ _ _ _ (seq c ?len) slot ?w0] =>
          pose proof (walkChunk_firstError len c slot w0 ltac:(lia)) as Hwalk;
          destruct (walkChunk items cap needs path vo threshold value
                      (seq c len) slot w0) as [[res slot'] w']
      end.
      cbn [fst snd] in *. rewrite Hwalk.
      destruct res; try reflexivity; cbn [ret fst];
        rewrite firstError_drop_ge by lia; reflexivity.
    + rewrite processChunk_as_walk by (rewrite Hcs; cbn; lia).
      rewrite Hcs. rewrite !bind_run. cbn [chunkEnd nextChunkStart Nat.sub seq].
      reflexivity.
Qed.

End AsyncFirstError.

Lemma validateArray_expected options needs path vo r v w :
  (forall items', items options = Some items' ->
     forall i x w',
       (internalValidate items' x vo (appendPathIndex path i) w').1 = r i x) ->
  (validateArray v options needs path vo w).1
  = expectedArrayResult r options needs (validation vo) path v.
Proof.
  intros Hr. destruct v; try reflexivity. unfold expectedArrayResult.
  destruct (negb needs && isNone (validation vo)) eqn:Hguard.
  { unfold validateArray. rewrite Hguard. reflexivity. }
  destruct (lengthError options (length elems) path) as [e|] eqn:He.
  { apply validateArray_lengthError; assumption. }
  rewrite validateArray_withinBounds by exact He.
  unfold validateArray. cbn. rewrite Hguard.
  destruct (items options) as [items'|]; [|reflexivity].
  rewrite bind_run.
  pose proof (validateItems_firstError items' (maxEntriesToValidate options)
                needs path vo r elems 0 None w (Hr items' eq_refl)) as Hwalk.
  destruct (validateItems _ _ _ _ _ _ _ _ _).1; exact Hwalk.
Qed.

Lemma asyncValidateArray_expected threshold options needs path vo r v w :
  (forall items', items options = Some items' ->
     max1 (floorDiv threshold (estimatedValidationTimeComplexity items')) <> NaN
     /\ forall i x w',
          (validatorFor threshold items' x vo (appendPathIndex path i) w').1
          = r i x) ->
  isNone (validation vo) = false \/ needs = false ->
  (asyncValidateArray threshold v options needs path vo w).1
  = expectedArrayResult r options needs (validation vo) path v.
Proof.
  intros Hr Hmode. destruct v; try reflexivity. unfold expectedArrayResult.
  destruct (negb needs && isNone (validation vo)) eqn:Hguard.
  { unfold asyncValidateArray. rewrite Hguard. reflexivity. }
  assert (HisNone : isNone (validation vo) = false).
  { destruct Hmode as [H | ->]; [exact H|exact Hguard]. }
  destruct (lengthError options (length elems) path) as [e|] eqn:He.
  { apply asyncValidateArray_lengthError; assumption. }
  rewrite asyncValidateArray_withinBounds by exact He.
  unfold asyncValidateArray. cbn. rewrite Hguard, HisNone. cbn.
  destruct (items options) as [items'|]; [|reflexivity].
  destruct (Hr items' eq_refl) as [HNaN Hitems].
  rewrite (processChunks_firstError r items' _ needs path vo threshold elems
             Hitems) by lia.
  destruct (max1 _); [reflexivity|reflexivity|done].
Qed.

Lemma asyncValidateArray_result_pure threshold options needs path vo v w w' :
  (forall items', items options = Some items' ->
     forall x p w1 w2,
       (validatorFor threshold items' x vo p w1).1
       = (validatorFor threshold items' x vo p w2).1) ->
  (asyncValidateArray threshold v options needs path vo w).1
  = (asyncValidateArray threshold v options needs path vo w').1.
Proof.
  intros Hpure. unfold asyncValidateArray. destruct v; try reflexivity.
  destruct (negb needs && isNone (validation vo)); [reflexivity|].
  match goal with
  | |- context [match ?f with Return _ => _ | Continue _ => _ end] =>
      destruct f as [res|slot]
  end; [reflexivity|].
  destruct (items options) as [items'|]; [|reflexivity].
  assert (Hr : forall i x w0,
             (validatorFor threshold items' x vo (appendPathIndex path i) w0).1
             = (validatorFor threshold items' x vo (appendPathIndex path i)
                  initialWorld).1)
    by (intros i x w0; apply (Hpure items' eq_refl)).
  rewrite !(processChunks_firstError _ items' _ needs path vo threshold elems
              Hr) by lia.
  reflexivity.
Qed.

Lemma upgradedValidate_same_result lw uniqueName deadline vNew vOld vNew' vOld'
    v o path :
  (forall w w', (vNew' v o path w').1 = (vNew v o path w).1) ->
  (forall w w', (vOld' v o path w').1 = (vOld v o path w).1) ->
  forall w w',
    (upgradedValidate lw uniqueName deadline vNew' vOld' v o path w').1
    = (upgradedValidate lw uniqueName deadline vNew vOld v o path w).1.
Proof.
  intros Hn Ho w w'. rewrite !upgradedValidate_run.
  rewrite (Hn w w').
  destruct (vNew v o path w) as [[e|] w1]; cbn [fst snd]; [|reflexivity].
  rewrite (Ho w1 (vNew' v o path w').2).
  destruct (vOld v o path w1) as [[e'|] w2]; reflexivity.
Qed.

Lemma validatorFor_cases threshold child (Q : InternalValidator -> Prop) :
  Q (internalValidate child) -> Q (internalValidateAsync child) ->
  Q (validatorFor threshold child).
Proof. intros Hs Ha. unfold validatorFor. destruct (_ <? _); assumption. Qed.

(** For schemas built from the three kinds, neither outcome depends on the
    state of the process. *)
Lemma built_results_pure threshold loggerHasWarn S :
  built threshold loggerHasWarn S ->
  forall V o path w w',
    (internalValidate S V o path w).1 = (internalValidate S V o path w').1
    /\ (internalValidateAsync S V o path w).1
       = (internalValidateAsync S V o path w').1.
Proof.
  induction 1 as [type cost serDes check
                 | options Hitems IH
                 | uniqueName old new deadline Hold IHold Hnew IHnew];
    intros V o path w w'.
  - split; reflexivity.
  - cbn [array internalValidate internalValidateAsync]. split.
    + apply validateArray_result_pure.
      intros items' Hi x p w1 w2. apply (IH items' Hi x o p w1 w2).
    + apply asyncValidateArray_result_pure.
      intros items' Hi x p w1 w2.
      apply (validatorFor_cases threshold items'
               (fun f => (f x o p w1).1 = (f x o p w2).1));
        apply (IH items' Hi x o p w1 w2).
  - cbn [upgraded internalValidate internalValidateAsync].
    split; apply upgradedValidate_same_result; intros w1 w2;
      try apply (validatorFor_cases threshold _
                   (fun f => (f V o path w2).1 = (f V o path w1).1));
      first [apply IHnew | apply IHold].
Qed.

(** With a positive threshold, in the modes hard and soft (and in every mode
    for schemas that need no custom serialization), the asynchronous
    validator of a built schema returns what the synchronous one returns. *)
Lemma built_async_same_as_sync threshold loggerHasWarn S :
  built threshold loggerHasWarn S ->
  0 < threshold ->
  forall V o path,
    validation o <> none \/ usesCustomSerDes S = false ->
    forall w w',
      (internalValidateAsync S V o path w').1
      = (internalValidate S V o path w).1.
Proof.
  intros Hbuilt Hthr.
  induction Hbuilt as [type cost serDes check
                      | options Hitems IH
                      | uniqueName old new deadline Hold IHold Hnew IHnew];
    intros V o path Hcond w w'.
  - reflexivity.
  - cbn [array internalValidate internalValidateAsync usesCustomSerDes] in *.
    set (r := match items options with
              | Some items' => itemOutcome items' o path
              | None => fun _ _ => noError
              end).
    rewrite (validateArray_expected _ _ _ _ r),
            (asyncValidateArray_expected _ _ _ _ _ r); [reflexivity| | |].
    + intros items' Hi. split.
      { rewrite max1_floorDiv_NaN. lia. }
      intros i x w1. subst r. rewrite Hi. unfold itemOutcome.
      apply (validatorFor_cases threshold items'
               (fun f => (f x o (appendPathIndex path i) w1).1
                         = (internalValidate items' x o
                              (appendPathIndex path i) initialWorld).1)).
      * apply (built_results_pure _ _ _ (Hitems items' Hi)).
      * apply (IH items' Hi).
        unfold needsDeepSerDesOf in Hcond. rewrite Hi in Hcond. exact Hcond.
    + destruct Hcond as [Hmode|Hneeds]; [left|right; exact Hneeds].
      destruct (validation o); [reflexivity|reflexivity|done].
    + intros items' Hi i x w1. subst r. rewrite Hi. unfold itemOutcome.
      apply (built_results_pure _ _ _ (Hitems items' Hi)).
  - cbn [upgraded internalValidate internalValidateAsync usesCustomSerDes] in *.
    assert (Hboth : (validation o <> none \/ usesCustomSerDes old = false)
                    /\ (validation o <> none \/ usesCustomSerDes new = false)).
    { destruct Hcond as [Hmode|Hser]; [tauto|].
      apply orb_false_elim in Hser. tauto. }
    apply upgradedValidate_same_result; intros w1 w2.
    + apply (validatorFor_cases threshold new
               (fun f => (f V o path w2).1 = (internalValidate new V o path w1).1)).
      * apply (built_results_pure _ _ _ Hnew).
      * apply IHnew, Hboth.
    + apply (validatorFor_cases threshold old
               (fun f => (f V o path w2).1 = (internalValidate old V o path w1).1)).
      * apply (built_results_pure _ _ _ Hold).
      * apply IHold, Hboth.
Qed.

(** X1: the synchronous validator of an array schema over built items
    reports the type mismatch, else (unless the mode is none and nothing
    needs custom serialization) the length error, else the error of the
    first rejected item among the validated ones, whether or not it stops on
    the first error. *)
Theorem array_reports_first_error threshold loggerHasWarn options V o path w :
  (forall items', items options = Some items' ->
                  built threshold loggerHasWarn items') ->
  (internalValidate (array threshold options) V o path w).1
  = expectedArrayResult
      (match items options with
       | Some items' => itemOutcome items' o path
       | None => fun _ _ => noError
       end)
      options (needsDeepSerDesOf options) (validation o) path V.
Proof.
  intros Hbuilt. cbn [array internalValidate].
  apply validateArray_expected.
  intros items' Hi i x w'. rewrite Hi. unfold itemOutcome.
  apply (built_results_pure _ _ _ (Hbuilt items' Hi)).
Qed.

Lemma strings_built threshold loggerHasWarn :
  forall items', Some stringSchema = Some items' ->
                 built threshold loggerHasWarn items'.
Proof. intros items' [= <-]. apply built_leaf. Qed.

Lemma array_reports_first_error_witness :
  (forall items',
      items (optionsWith (Some stringSchema) (Some 1) None None) = Some items' ->
      built 250 true items')
  /\ (internalValidate
        (array 250 (optionsWith (Some stringSchema) (Some 1) None None))
        (VArray [VString "a"; VNumber 5; VBool true]) (withMode soft) ""
        initialWorld).1
     = Some (ChildError "Expected string, found number @ [1]").
Proof.
  split; [apply strings_built|].
  rewrite (array_reports_first_error 250 true
             (optionsWith (Some stringSchema) (Some 1) None None) _ _ _ _
             (strings_built 250 true)).
  reflexivity.
Defined.

(** X2: with a positive threshold, in the modes hard and soft (and in every
    mode for a schema that needs no custom serialization), the asynchronous
    validator of a built schema returns the outcome of the synchronous one,
    on valid and invalid values alike. *)
Theorem async_outcome_is_sync_outcome threshold loggerHasWarn S V o path w w' :
  built threshold loggerHasWarn S ->
  0 < threshold ->
  validation o <> none \/ usesCustomSerDes S = false ->
  (internalValidateAsync S V o path w').1 = (internalValidate S V o path w).1.
Proof.
  intros Hbuilt Hthr Hcond.
  apply (built_async_same_as_sync _ _ _ Hbuilt Hthr); exact Hcond.
Qed.

Lemma nestedStrings_built threshold loggerHasWarn :
  built threshold loggerHasWarn (nestedStrings threshold).
Proof.
  apply built_array. intros items' [= <-].
  apply built_array. intros items'' [= <-]. apply built_leaf.
Qed.

Lemma async_outcome_is_sync_outcome_witness :
  built 2 true (nestedStrings 2)
  /\ 0 < 2
  /\ (validation hardOptions <> none
      \/ usesCustomSerDes (nestedStrings 2) = false)
  /\ (internalValidateAsync (nestedStrings 2)
        (VArray [VArray [VString "a"]; VArray [VString "b"; VNull]])
        hardOptions "" initialWorld).1
     = Some (ChildError "Expected string, found null @ [1][1]").
Proof.
  assert (Hthr : 0 < 2) by lia.
  assert (Hcond : validation hardOptions <> none
                  \/ usesCustomSerDes (nestedStrings 2) = false)
    by (right; reflexivity).
  split; [apply nestedStrings_built|]. split; [exact Hthr|].
  split; [exact Hcond|].
  rewrite (async_outcome_is_sync_outcome 2 true _ _ _ _ initialWorld _
             (nestedStrings_built 2 true) Hthr Hcond).
  reflexivity.
Defined.

(** X3: the outcome of validating a value against a built schema does not
    depend on the state of the process (the warnings already logged, what
    was validated before): validating again gives the same outcome. *)
Theorem outcome_independent_of_process_state threshold loggerHasWarn S V o
    path w w' :
  built threshold loggerHasWarn S ->
  (internalValidate S V o path w).1 = (internalValidate S V o path w').1
  /\ (internalValidateAsync S V o path w).1
     = (internalValidateAsync S V o path w').1.
Proof. intros Hbuilt. apply (built_results_pure _ _ _ Hbuilt). Qed.

Lemma outcome_independent_of_process_state_witness :
  let after := (internalValidate userIdSchema (VNumber 42) hardOptions ""
                  initialWorld).2 in
  built 250 true userIdSchema
  /\ after <> initialWorld
  /\ (internalValidate userIdSchema (VNumber 42) hardOptions "" after).1
     = (internalValidate userIdSchema (VNumber 42) hardOptions ""
          initialWorld).1.
Proof.
  split; [apply userIdSchema_built|]. split.
  - intros H. apply (f_equal trace) in H. discriminate H.
  - apply (outcome_independent_of_process_state 250 true userIdSchema
             (VNumber 42) hardOptions "" _ initialWorld userIdSchema_built).
Defined.

(** X13: whatever the synchronous validator of a built schema accepts, its
    asynchronous validator accepts, in every mode and whatever the
    threshold. *)
Theorem sync_accepted_is_async_accepted threshold loggerHasWarn S V o path w w' :
  built threshold loggerHasWarn S ->
  (internalValidate S V o path w).1 = noError ->
  (internalValidateAsync S V o path w').1 = noError.
Proof.
  intros Hbuilt.
  apply (built_sync_accept_async_accept _ _ _ Hbuilt V o path).
Qed.

Lemma sync_accepted_is_async_accepted_witness :
  built 0 true (nestedStrings 0)
  /\ (internalValidate (nestedStrings 0) (VArray [VArray [VString "a"]])
        hardOptions "" initialWorld).1 = noError
  /\ (internalValidateAsync (nestedStrings 0) (VArray [VArray [VString "a"]])
        hardOptions "" initialWorld).1 = noError.
Proof.
  assert (Hsync : (internalValidate (nestedStrings 0)
                     (VArray [VArray [VString "a"]]) hardOptions ""
                     initialWorld).1 = noError) by reflexivity.
  split; [apply nestedStrings_built|]. split; [exact Hsync|].
  exact (sync_accepted_is_async_accepted 0 true _ _ _ _ _ initialWorld
           (nestedStrings_built 0 true) Hsync).
Defined.

(** ** What a validation leaves behind *)

Lemma warnOnce_only_adds lw uniqueName deadline v w0 w :
  alreadyLogUpgradedWarnings w0 ⊆ alreadyLogUpgradedWarnings w
  /\ trace w0 `prefix_of` trace w ->
  alreadyLogUpgradedWarnings w0
    ⊆ alreadyLogUpgradedWarnings (warnOnce lw uniqueName deadline v w).2
  /\ trace w0 `prefix_of` trace (warnOnce lw uniqueName deadline v w).2.
Proof.
  intros [Hset Htrace]. unfold warnOnce.
  destruct (isDefined v && _); [|split; assumption].
  destruct lw; cbn; (split; [set_solver|]);
    [apply prefix_app_r|]; exact Htrace.
Qed.

(** X4: a validation against a built schema never removes a name from the
    warning set and never rewrites what has been logged: the set after
    contains the set before, the history after extends the history
    before. *)
Theorem validation_only_adds threshold loggerHasWarn S V o path w :
  built threshold loggerHasWarn S ->
  let grows (w' : world) : Prop :=
    alreadyLogUpgradedWarnings w ⊆ alreadyLogUpgradedWarnings w'
    /\ trace w `prefix_of` trace w' in
  grows (internalValidate S V o path w).2
  /\ grows (internalValidateAsync S V o path w).2.
Proof.
  intros Hbuilt. cbn zeta.
  pose (P := fun w' : world =>
               alreadyLogUpgradedWarnings w ⊆ alreadyLogUpgradedWarnings w'
               /\ trace w `prefix_of` trace w').
  assert (Hevent : forall w' e, (forall n m, e <> Warned n m) -> P w' ->
             P {| alreadyLogUpgradedWarnings := alreadyLogUpgradedWarnings w';
                  trace := trace w' ++ [e] |}).
  { intros w' e _ [Hset Htrace]. split; cbn;
      [exact Hset|apply prefix_app_r; exact Htrace]. }
  assert (Hwarn : forall uniqueName deadline v w',
             P w' -> P (warnOnce loggerHasWarn uniqueName deadline v w').2)
    by (intros uniqueName deadline v w'; apply warnOnce_only_adds).
  destruct (built_preserves threshold loggerHasWarn P Hevent Hwarn S Hbuilt
              V o path) as [Hsync Hasync].
  assert (HP : P w) by (split; reflexivity).
  split; [apply (Hsync w HP)|apply (Hasync w HP)].
Qed.

Lemma validation_only_adds_witness :
  let w1 := (internalValidate userIdSchema (VNumber 42) hardOptions ""
               initialWorld).2 in
  built 250 true userIdSchema
  /\ "userId" ∈ alreadyLogUpgradedWarnings w1
  /\ alreadyLogUpgradedWarnings w1
       ⊆ alreadyLogUpgradedWarnings
           (internalValidateAsync userIdSchema (VString "x") hardOptions "" w1).2.
Proof.
  split; [apply userIdSchema_built|]. split.
  - vm_compute. reflexivity.
  - apply (validation_only_adds 250 true userIdSchema (VString "x")
             hardOptions "" _ userIdSchema_built).
Defined.

(** ** The synchronous path never schedules *)

Section Quiet.

Variable P : world -> Prop.

Hypothesis P_quiet : forall w e,
  isScheduling e = false -> P w ->
  P {| alreadyLogUpgradedWarnings := alreadyLogUpgradedWarnings w;
       trace := trace w ++ [e] |}.

Lemma quiet_validateItems items cap needs path vo :
  (forall x p, preserves P (internalValidate items x vo p)) ->
  forall rest index slot,
    preserves P (validateItems items cap needs path vo rest index slot).
Proof using P_quiet.
  intros Hitems rest. induction rest as [|x rest IH]; intros index slot;
    cbn [validateItems].
  - apply preserves_ret.
  - destruct (reachedMaxEntries needs cap index); [apply preserves_ret|].
    apply preserves_bind.
    + apply preserves_bind; [|intros _; apply Hitems].
      intros w Hw. apply P_quiet; [reflexivity|exact Hw].
    + intros result.
      destruct (recordResult _ _ _); [apply preserves_ret|apply IH].
Qed.

Lemma quiet_validateArray v options needs path vo :
  (forall items', items options = Some items' ->
     forall x p, preserves P (internalValidate items' x vo p)) ->
  preserves P (validateArray v options needs path vo).
Proof using P_quiet.
  intros Hitems. unfold validateArray. destruct v; try apply preserves_ret.
  destruct (negb needs && isNone (validation vo)); [apply preserves_ret|].
  destruct (recordError _ _ _ _); [apply preserves_ret|].
  match goal with
  | |- context [match ?f with Return _ => _ | Continue _ => _ end] =>
      destruct f
  end; [apply preserves_ret|].
  destruct (items options) as [items'|]; [|apply preserves_ret].
  apply preserves_bind;
    [apply quiet_validateItems; apply (Hitems items' eq_refl)|].
  intros [res|res]; apply preserves_ret.
Qed.

Lemma built_sync_quiet threshold loggerHasWarn S :
  (forall uniqueName deadline v w,
      P w -> P (warnOnce loggerHasWarn uniqueName deadline v w).2) ->
  built threshold loggerHasWarn S ->
  forall v o path, preserves P (internalValidate S v o path).
Proof using P_quiet.
  intros Hwarn.
  induction 1 as [type cost serDes check
                 | options Hitems IH
                 | uniqueName old new deadline Hold IHold Hnew IHnew];
    intros v o path.
  - apply preserves_ret.
  - cbn [array internalValidate]. apply quiet_validateArray.
    intros items' Hi x p. apply (IH items' Hi).
  - cbn [upgraded internalValidate].
    apply preserves_upgradedValidate; [exact Hwarn|apply IHnew|apply IHold].
Qed.

End Quiet.

(** X5: the synchronous validator of a built schema never asks
    [shouldYield] and never yields, however deep the schema. *)
Theorem sync_never_schedules threshold loggerHasWarn S V o path w :
  built threshold loggerHasWarn S ->
  List.filter isScheduling (trace (internalValidate S V o path w).2)
  = List.filter isScheduling (trace w).
Proof.
  intros Hbuilt.
  pose (P := fun w' : world =>
               List.filter isScheduling (trace w')
               = List.filter isScheduling (trace w)).
  assert (Hquiet : forall w' e, isScheduling e = false -> P w' ->
             P {| alreadyLogUpgradedWarnings := alreadyLogUpgradedWarnings w';
                  trace := trace w' ++ [e] |}).
  { intros w' e He Hw'. unfold P in *. cbn.
    rewrite List.filter_app, Hw'. cbn. rewrite He. apply app_nil_r. }
  assert (Hwarn : forall uniqueName deadline v w',
             P w' -> P (warnOnce loggerHasWarn uniqueName deadline v w').2).
  { intros uniqueName deadline v w' Hw'. unfold P, warnOnce in *.
    destruct (isDefined v && _); [|exact Hw'].
    destruct loggerHasWarn; cbn; [|exact Hw'].
    rewrite List.filter_app, Hw'. apply app_nil_r. }
  exact (built_sync_quiet P Hquiet threshold loggerHasWarn S Hwarn Hbuilt
           V o path w eq_refl).
Qed.

Lemma sync_never_schedules_witness :
  let o := {| validation := hard; shouldYield := fun _ => true |} in
  built 0 true (nestedStrings 0)
  /\ List.filter isScheduling
       (trace (internalValidate (nestedStrings 0)
                 (VArray [VArray [VString "a"]; VArray []]) o ""
                 initialWorld).2) = []
  /\ List.filter isScheduling
       (trace (internalValidateAsync (nestedStrings 0)
                 (VArray [VArray [VString "a"]; VArray []]) o ""
                 initialWorld).2) <> [].
Proof.
  split; [apply nestedStrings_built|]. split.
  - apply (sync_never_schedules 0 true (nestedStrings 0) _ _ "" initialWorld
             (nestedStrings_built 0 true)).
  - vm_compute. discriminate.
Defined.

(** ** An absent value *)

Lemma upgradedValidate_undefined lw uniqueName deadline vNew vOld o path w :
  (forall w', (vNew VUndefined o path w').2 = w') ->
  (forall w', (vOld VUndefined o path w').2 = w') ->
  (upgradedValidate lw uniqueName deadline vNew vOld VUndefined o path w).2 = w.
Proof.
  intros Hn Ho. rewrite upgradedValidate_run.
  destruct (vNew VUndefined o path w).1; cbn zeta; rewrite ?Hn; [|reflexivity].
  destruct (vOld VUndefined o path w).1; cbn; rewrite ?Ho; reflexivity.
Qed.

(** X6: validating [undefined] against a built schema has no effect on the
    process: no item is validated, nothing is asked of the scheduler, no
    deprecation warning is logged and no name enters the warning set. *)
Theorem undefined_has_no_effect threshold loggerHasWarn S o path w :
  built threshold loggerHasWarn S ->
  (internalValidate S VUndefined o path w).2 = w
  /\ (internalValidateAsync S VUndefined o path w).2 = w.
Proof.
  intros Hbuilt. revert w.
  induction Hbuilt as [type cost serDes check
                      | options Hitems IH
                      | uniqueName old new deadline Hold IHold Hnew IHnew];
    intros w.
  - split; reflexivity.
  - split; reflexivity.
  - cbn [upgraded internalValidate internalValidateAsync].
    split; apply upgradedValidate_undefined; intros w';
      try apply (validatorFor_cases threshold _
                   (fun f => (f VUndefined o path w').2 = w'));
      first [apply IHnew | apply IHold].
Qed.

Lemma undefined_has_no_effect_witness :
  let S := upgraded 250 true "userId" (leaf "any" 1 false (fun _ _ _ => noError))
             stringSchema None in
  built 250 true S
  /\ internalValidate S VUndefined hardOptions "" initialWorld
     = (noError, initialWorld)
  /\ (internalValidate S VNull hardOptions "" initialWorld).2 <> initialWorld.
Proof.
  assert (Hbuilt : built 250 true
                     (upgraded 250 true "userId"
                        (leaf "any" 1 false (fun _ _ _ => noError))
                        stringSchema None))
    by (apply built_upgraded; apply built_leaf).
  split; [exact Hbuilt|]. split.
  - pose proof (proj1 (undefined_has_no_effect 250 true _ hardOptions ""
                         initialWorld Hbuilt)) as Hw.
    apply injective_projections; [reflexivity|exact Hw].
  - intros H. apply (f_equal trace) in H. discriminate H.
Defined.

(** ** The limit on validated entries *)

(** X7: when the items use custom serialization, [maxEntriesToValidate] is
    ignored altogether: cost, synchronous and asynchronous validation are
    those of the same schema without the limit. *)
Theorem serdes_ignores_maxEntriesToValidate threshold options V o path w :
  needsDeepSerDesOf options = true ->
  let limited := array threshold options in
  let unlimited := array threshold (withoutMaxEntries options) in
  estimatedValidationTimeComplexity limited
  = estimatedValidationTimeComplexity unlimited
  /\ internalValidate limited V o path w = internalValidate unlimited V o path w
  /\ internalValidateAsync limited V o path w
     = internalValidateAsync unlimited V o path w.
Proof.
  intros Hneeds. cbn zeta.
  cbn [array internalValidate internalValidateAsync
       estimatedValidationTimeComplexity].
  change (needsDeepSerDesOf (withoutMaxEntries options))
    with (needsDeepSerDesOf options).
  rewrite Hneeds. split; [reflexivity|].
  unfold validateArray, asyncValidateArray.
  cbn [withoutMaxEntries items minLength maxLength maxEntriesToValidate].
  destruct V; split; reflexivity.
Qed.

Lemma serdes_ignores_maxEntriesToValidate_witness :
  let options := optionsWith (Some dateSchema) None None (Some 1) in
  let V := VArray [VString "2020-01-01"; VNumber 5] in
  needsDeepSerDesOf options = true
  /\ (internalValidate (array 250 options) V hardOptions "" initialWorld).1
     = Some (ChildError "Expected date, found number @ [1]")
  /\ internalValidateAsync (array 250 options) V hardOptions "" initialWorld
     = internalValidateAsync (array 250 (withoutMaxEntries options)) V
         hardOptions "" initialWorld.
Proof.
  pose proof (serdes_ignores_maxEntriesToValidate 250
                (optionsWith (Some dateSchema) None None (Some 1))
                (VArray [VString "2020-01-01"; VNumber 5]) hardOptions ""
                initialWorld eq_refl) as (_ & Hsync & Hasync).
  split; [reflexivity|]. split; [rewrite Hsync; reflexivity|exact Hasync].
Defined.

Lemma validateItems_take items k path vo rest index slot w :
  validateItems items (Some k) false path vo rest index slot w
  = validateItems items (Some k) false path vo (take (k - index) rest) index
      slot w.
Proof.
  revert index slot w. induction rest as [|x rest IH]; intros index slot w.
  - rewrite take_nil. reflexivity.
  - cbn [validateItems reachedMaxEntries negb andb].
    destruct (Nat.leb_spec k index) as [Hle|Hlt].
    + replace (k - index) with 0 by lia. reflexivity.
    + replace (k - index) with (S (k - S index)) by lia.
      cbn [take validateItems reachedMaxEntries negb andb].
      destruct (Nat.leb_spec k index); [lia|].
      rewrite !bind_run. destruct (recordResult _ _ _); [reflexivity|apply IH].
Qed.

(** X8: without custom serialization and with [maxEntriesToValidate = k],
    the synchronous validator treats an array within the length bounds as it
    treats its first [k] items alone: same outcome, same effects.  The items
    from index [k] on are never handed to the item validator. *)
Theorem sync_validates_first_entries_only threshold options k elems o path w :
  needsDeepSerDesOf options = false ->
  maxEntriesToValidate options = Some k ->
  withinBounds options (length elems) = true ->
  internalValidate (array threshold options) (VArray elems) o path w
  = internalValidate (array threshold (withoutBounds options))
      (VArray (take k elems)) o path w.
Proof.
  intros Hneeds Hcap Hb. cbn [array internalValidate].
  change (needsDeepSerDesOf (withoutBounds options))
    with (needsDeepSerDesOf options).
  rewrite Hneeds.
  rewrite validateArray_withinBounds
    by (apply lengthError_withinBounds; exact Hb).
  unfold validateArray.
  cbn [withoutBounds items minLength maxLength maxEntriesToValidate default
       recordError Nat.ltb Nat.leb].
  destruct (negb false && isNone (validation o)); [reflexivity|].
  destruct (items options); [|reflexivity].
  rewrite Hcap, !bind_run, validateItems_take, Nat.sub_0_r. reflexivity.
Qed.

Lemma sync_validates_first_entries_only_witness :
  let options := optionsWith (Some stringSchema) None None (Some 2) in
  let elems := [VString "a"; VString "b"; VNumber 5; VNull] in
  needsDeepSerDesOf options = false
  /\ maxEntriesToValidate options = Some 2
  /\ withinBounds options (length elems) = true
  /\ internalValidate (array 250 options) (VArray elems) hardOptions ""
       initialWorld
     = (noError,
        {| alreadyLogUpgradedWarnings := ∅;
           trace := [ItemValidated false "[0]"; ItemValidated false "[1]"] |}).
Proof.
  split; [reflexivity|]. split; [reflexivity|]. split; [reflexivity|].
  rewrite (sync_validates_first_entries_only 250
             (optionsWith (Some stringSchema) None None (Some 2)) 2
             [VString "a"; VString "b"; VNumber 5; VNull] hardOptions ""
             initialWorld eq_refl eq_refl eq_refl).
  vm_compute. reflexivity.
Defined.

(** ** Stopping, and not stopping, on the first error *)

(** X11: when stopping on the first error applies (mode hard, or items
    without custom serialization), the synchronous validator treats an
    array within the length bounds as it treats the array cut right after
    any rejected item: same outcome, same effects.  Nothing behind a
    rejected item is validated. *)
Theorem sync_stops_at_rejected_item threshold options items' elems j x o path w :
  isHard (validation o) || negb (needsDeepSerDesOf options) = true ->
  items options = Some items' ->
  withinBounds options (length elems) = true ->
  elems !! j = Some x ->
  itemRejected items' path o false j x ->
  internalValidate (array threshold options) (VArray elems) o path w
  = internalValidate (array threshold (withoutBounds options))
      (VArray (take (S j) elems)) o path w.
Proof.
  intros Hstop Hitems Hb Hj Hrej. cbn [array internalValidate].
  change (needsDeepSerDesOf (withoutBounds options))
    with (needsDeepSerDesOf options).
  rewrite validateArray_withinBounds
    by (apply lengthError_withinBounds; exact Hb).
  unfold validateArray.
  cbn [withoutBounds items minLength maxLength maxEntriesToValidate default
       recordError Nat.ltb Nat.leb].
  destruct (negb (needsDeepSerDesOf options) && isNone (validation o));
    [reflexivity|].
  rewrite Hitems, !bind_run.
  rewrite (validateItems_stops_at_first_error items' _ _ path o elems 0 j x w
             Hstop Hj Hrej).
  reflexivity.
Qed.

Lemma sync_stops_at_rejected_item_witness :
  let options := arrayOf stringSchema in
  let elems := [VString "a"; VNumber 5; VString "c"; VNull] in
  isHard (validation hardOptions) || negb (needsDeepSerDesOf options) = true
  /\ items options = Some stringSchema
  /\ withinBounds options (length elems) = true
  /\ elems !! 1 = Some (VNumber 5)
  /\ internalValidate (array 250 options) (VArray elems) hardOptions ""
       initialWorld
     = (Some (ChildError "Expected string, found number @ [1]"),
        {| alreadyLogUpgradedWarnings := ∅;
           trace := [ItemValidated false "[0]"; ItemValidated false "[1]"] |}).
Proof.
  assert (Hrej : itemRejected stringSchema "" hardOptions false 1 (VNumber 5))
    by (intros w; discriminate).
  split; [reflexivity|]. split; [reflexivity|]. split; [reflexivity|].
  split; [reflexivity|].
  rewrite (sync_stops_at_rejected_item 250 (arrayOf stringSchema) stringSchema
             [VString "a"; VNumber 5; VString "c"; VNull] 1 (VNumber 5)
             hardOptions "" initialWorld eq_refl eq_refl eq_refl eq_refl Hrej).
  vm_compute. reflexivity.
Defined.




(** ** One question to the scheduler per chunk *)

Lemma pollCount_snoc history e :
  pollCount (history ++ [e])
  = pollCount history + (if isShouldYieldAsked e then 1 else 0).
Proof.
  unfold pollCount. rewrite List.filter_app, length_app. cbn.
  destruct (isShouldYieldAsked e); reflexivity.
Qed.

Section Polls.

Variables (items : Schema) (cap : option nat) (path : string)
          (vo : InternalValidationOptions) (threshold : nat)
          (value : list value).

Hypothesis Hsoft : isHard (validation vo) = false.

Hypothesis items_quiet : forall x p w,
  pollCount (trace (validatorFor threshold items x vo p w).2)
  = pollCount (trace w).

Lemma walkChunk_no_early_exit indices slot w :
  (walkChunk items cap true path vo threshold value indices slot w).1.1
  = ChunkUndefined
  /\ pollCount (trace (walkChunk items cap true path vo threshold value
                         indices slot w).2)
     = pollCount (trace w).
Proof using Hsoft items_quiet.
  revert slot w. induction indices as [|index indices IH]; intros slot w;
    cbn [walkChunk reachedMaxEntries negb andb].
  - split; reflexivity.
  - rewrite bind_run, validateItem_run, Hsoft. cbn [orb negb].
    match goal with
    | |- context [recordResult ?res false slot] =>
        assert (Hflow : exists slot', recordResult res false slot
                                      = Continue slot')
          by (destruct slot, res; cbn; eauto);
        destruct Hflow as [slot' ->]
    end.
    destruct (IH slot'
                ((if threshold <? estimatedValidationTimeComplexity items
                  then internalValidateAsync items else internalValidate items)
                   (nth index value VUndefined) vo (appendPathIndex path index)
                   (emit (ItemValidated
                            (threshold <? estimatedValidationTimeComplexity items)
                            (appendPathIndex path index)) w).2).2)
      as [Hres Hpolls].
    split; [exact Hres|]. rewrite Hpolls.
    pose proof (items_quiet (nth index value VUndefined)
                  (appendPathIndex path index)
                  (emit (ItemValidated
                           (threshold <? estimatedValidationTimeComplexity items)
                           (appendPathIndex path index)) w).2) as Hq.
    unfold validatorFor in Hq. rewrite Hq. cbn [emit snd trace].
    rewrite pollCount_snoc. cbn. lia.
Qed.

Lemma walkChunks_polls chunkList slot w :
  pollCount (trace (walkChunks items cap true path vo threshold value
                      chunkList slot w).2)
  = pollCount (trace w) + length chunkList.
Proof using Hsoft items_quiet.
  revert slot w. induction chunkList as [|chunk chunkList IH]; intros slot w;
    cbn [walkChunks length].
  - cbn. lia.
  - rewrite !bind_run.
    set (w1 := (askShouldYield vo w).2).
    set (w2 := ((if (askShouldYield vo w).1 then yield else ret tt) w1).2).
    destruct (walkChunk_no_early_exit chunk slot w2) as [Hres Hpolls].
    destruct (walkChunk items cap true path vo threshold value chunk slot w2)
      as [[res slot'] w3].
    cbn [fst snd] in *. subst res. rewrite IH, Hpolls.
    assert (H1 : pollCount (trace w1) = pollCount (trace w) + 1)
      by (subst w1; cbn [askShouldYield snd trace];
          rewrite pollCount_snoc; reflexivity).
    assert (H2 : pollCount (trace w2) = pollCount (trace w1)).
    { subst w2. destruct (askShouldYield vo w).1; [|reflexivity].
      cbn [yield emit snd trace]. rewrite pollCount_snoc. cbn. lia. }
    lia.
Qed.

End Polls.

(** X10: outside mode hard, when the items use custom serialization and
    their validators ask nothing of the scheduler themselves, the
    asynchronous validator asks [shouldYield] exactly once per chunk of the
    array: [ceil(length / chunkSize)] times for a finite chunk size. *)
Theorem async_asks_shouldYield_once_per_chunk threshold options items' elems o
    path w :
  validation o <> hard ->
  items options = Some items' ->
  usesCustomSerDes items' = true ->
  (forall x p w',
      pollCount (trace (validatorFor threshold items' x o p w').2)
      = pollCount (trace w')) ->
  let chunkSize :=
    max1 (floorDiv threshold (estimatedValidationTimeComplexity items')) in
  pollCount (trace (internalValidateAsync (array threshold options)
                      (VArray elems) o path w).2)
  = pollCount (trace w) + length (chunks (length elems) chunkSize)
  /\ (forall size, chunkSize = Finite size ->
        length (chunks (length elems) chunkSize)
        = (length elems + size - 1) / size).
Proof.
  intros Hmode Hitems Hser Hquiet. cbn zeta. split.
  - assert (Hsoft : isHard (validation o) = false)
      by (destruct (validation o); [done|reflexivity|reflexivity]).
    cbn [array internalValidateAsync].
    unfold needsDeepSerDesOf. rewrite Hitems, Hser.
    unfold asyncValidateArray. rewrite Hsoft, Hitems. cbn [negb andb orb].
    unfold recordError.
    repeat match goal with
           | |- context [if ?b then _ else _] => destruct b
           | |- context [match maxLength options with _ => _ end] =>
               destruct (maxLength options)
           end;
      rewrite processChunks_as_walk by lia;
      apply walkChunks_polls; assumption.
  - intros size ->. cbn [chunks]. unfold chunksOfSize.
    rewrite length_map, length_seq. reflexivity.
Qed.

Lemma dateSchema_quiet threshold o :
  forall x p w',
    pollCount (trace (validatorFor threshold dateSchema x o p w').2)
    = pollCount (trace w').
Proof.
  intros x p w'. unfold validatorFor. destruct (_ <? _); reflexivity.
Qed.

Lemma async_asks_shouldYield_once_per_chunk_witness :
  let options := optionsWith (Some dateSchema) (Some 9) None None in
  let elems := [VString "a"; VNumber 5; VString "c"; VNull; VString "e"] in
  validation (withMode soft) <> hard
  /\ items options = Some dateSchema
  /\ usesCustomSerDes dateSchema = true
  /\ pollCount (trace (internalValidateAsync (array 2 options) (VArray elems)
                         (withMode soft) "" initialWorld).2) = 3.
Proof.
  assert (Hmode : validation (withMode soft) <> hard) by discriminate.
  split; [exact Hmode|]. split; [reflexivity|]. split; [reflexivity|].
  rewrite (proj1 (async_asks_shouldYield_once_per_chunk 2
                    (optionsWith (Some dateSchema) (Some 9) None None)
                    dateSchema
                    [VString "a"; VNumber 5; VString "c"; VNull; VString "e"]
                    (withMode soft) "" initialWorld Hmode eq_refl eq_refl
                    (dateSchema_quiet 2 (withMode soft)))).
  reflexivity.
Defined.

(** ** Either version of an upgraded schema *)

(** X12: an upgraded schema over built schemas accepts exactly the values
    that its new or its old schema accepts, and for the others it reports
    the old schema's error; this holds for the synchronous validators and,
    on the asynchronous path, for the validators it runs: a child's
    asynchronous validator when the child's cost exceeds the threshold, its
    synchronous validator otherwise. *)
Theorem upgraded_accepts_either_version threshold loggerHasWarn uniqueName old
    new deadline V o path w :
  built threshold loggerHasWarn old ->
  built threshold loggerHasWarn new ->
  let S := upgraded threshold loggerHasWarn uniqueName old new deadline in
  let ofAsyncPath (child : Schema) : InternalValidator :=
    if threshold <? estimatedValidationTimeComplexity child
    then internalValidateAsync child
    else internalValidate child in
  (internalValidate S V o path w).1
  = match (internalValidate new V o path w).1 with
    | None => noError
    | Some _ => (internalValidate old V o path w).1
    end
  /\ (internalValidateAsync S V o path w).1
     = match (ofAsyncPath new V o path w).1 with
       | None => noError
       | Some _ => (ofAsyncPath old V o path w).1
       end.
Proof.
  intros Hold Hnew. cbn zeta.
  cbn [upgraded internalValidate internalValidateAsync].
  split; rewrite upgradedValidate_run.
  - destruct (internalValidate new V o path w) as [[e|] w1]; cbn [fst snd];
      [|reflexivity].
    rewrite (proj1 (built_results_pure _ _ _ Hold V o path w1 w)).
    destruct (internalValidate old V o path w).1; reflexivity.
  - unfold validatorFor.
    destruct ((if threshold <? estimatedValidationTimeComplexity new
               then internalValidateAsync new else internalValidate new)
                V o path w) as [[e|] w1];
      cbn [fst snd]; [|reflexivity].
    assert (Hpure : ((if threshold <? estimatedValidationTimeComplexity old
                      then internalValidateAsync old else internalValidate old)
                       V o path w1).1
                    = ((if threshold <? estimatedValidationTimeComplexity old
                        then internalValidateAsync old else internalValidate old)
                         V o path w).1).
    { destruct (threshold <? estimatedValidationTimeComplexity old);
        apply (built_results_pure _ _ _ Hold). }
    rewrite Hpure.
    destruct ((if threshold <? estimatedValidationTimeComplexity old
               then internalValidateAsync old else internalValidate old)
                V o path w).1; reflexivity.
Qed.

Lemma upgraded_accepts_either_version_witness :
  built 250 true numberSchema
  /\ built 250 true stringSchema
  /\ (internalValidate userIdSchema VNull hardOptions "" initialWorld).1
     = Some (ChildError "Expected number, found null")
  /\ (internalValidateAsync userIdSchema (VNumber 42) hardOptions ""
        initialWorld).1 = noError.
Proof.
  assert (Hn : built 250 true numberSchema) by apply built_leaf.
  assert (Hs : built 250 true stringSchema) by apply built_leaf.
  split; [exact Hn|]. split; [exact Hs|].
  pose proof (upgraded_accepts_either_version 250 true "userId" numberSchema
                stringSchema None VNull hardOptions "" initialWorld Hn Hs)
    as [Hsync _].
  pose proof (upgraded_accepts_either_version 250 true "userId" numberSchema
                stringSchema None (VNumber 42) hardOptions "" initialWorld
                Hn Hs) as [_ Hasync].
  unfold userIdSchema.
  split; [rewrite Hsync; reflexivity|rewrite Hasync; reflexivity].
Defined.
